(** * Explore logs panel: deduplication, level filter and staged rendering

    A shallow embedding of [public/app/features/explore/Logs.tsx]: the
    [Logs] component (its state, its lifecycle methods, its handlers and
    [render]) together with the two helpers of [app/core/logs_model] that
    [render] calls, [filterLogLevels] and [dedupLogRows]. *)

From Stdlib Require Import Ascii String Lia.
From stdpp Require Import base list strings gmap.

(** [LogsDedupStrategy] of [app/core/logs_model]: the strategies the
    "Dedup" toggle group offers. *)
Module LogsDedupStrategy.
Inductive t := none | exact | numbers | signature.

#[global] Instance eq_dec : EqDecision t.
Proof. solve_decision. Defined.
End LogsDedupStrategy.

(** [LogsMetaKind]: the two kinds [Logs.tsx] refers to. *)
Module LogsMetaKind.
Inductive t := Number | LabelsMap.
End LogsMetaKind.

(** The [value: any] of a meta item, restricted to what the two kinds carry. *)
Inductive MetaValue :=
  | NumberValue (n : nat)
  | LabelsValue (labels : gmap string string).

Record LogsMetaItem := {
  label : string;
  value : MetaValue;
  kind : LogsMetaKind.t
}.

(** ** Text normalisation *)

Definition isDigit (c : ascii) : bool :=
  let n := nat_of_ascii c in (48 <=? n) && (n <=? 57).

Definition isAlphabetic (c : ascii) : bool :=
  let n := nat_of_ascii c in
  ((65 <=? n) && (n <=? 90)) || ((97 <=? n) && (n <=? 122)).

(** Every maximal run of digits becomes one copy of [placeholder];
    [inRun] tells whether the previous character was a digit. *)
Fixpoint replaceDigitRuns (placeholder : string) (inRun : bool) (text : string) : string :=
  match text with
  | EmptyString => EmptyString
  | String c rest =>
      if isDigit c
      then (if inRun then replaceDigitRuns placeholder true rest
            else placeholder +:+ replaceDigitRuns placeholder true rest)
      else String c (replaceDigitRuns placeholder false rest)
  end.

Fixpoint keepAlphabetic (text : string) : string :=
  match text with
  | EmptyString => EmptyString
  | String c rest =>
      if isAlphabetic c then String c (keepAlphabetic rest) else keepAlphabetic rest
  end.

Section Model.
(** [LogLevel] (an enumeration of [app/core/logs_model]) and the graph
    series of a model are opaque to the panel. *)
Context {LogLevel : Type} {LogLevel_eq : EqDecision LogLevel}
  {LogLevel_countable : Countable LogLevel} {Series : Type}.

(** The placeholder that stands for a run of digits under [numbers]. *)
Variable placeholder : string.

(** ** Data model *)

Record LogRow := {
  key : string;
  entry : string;
  timestamp : string;
  timeLocal : string;
  timeFromNow : string;
  logLevel : option LogLevel;
  uniqueLabels : gmap string string;
  duplicates : nat;
  searchWords : option (list string)
}.

Record LogsModel := {
  rows : list LogRow;
  meta : list LogsMetaItem;
  series : Series
}.

Definition withDuplicates (row : LogRow) (n : nat) : LogRow :=
  {| key := key row; entry := entry row; timestamp := timestamp row;
     timeLocal := timeLocal row; timeFromNow := timeFromNow row;
     logLevel := logLevel row; uniqueLabels := uniqueLabels row;
     duplicates := n; searchWords := searchWords row |}.

Definition withRows (logs : LogsModel) (rs : list LogRow) : LogsModel :=
  {| rows := rs; meta := meta logs; series := series logs |}.

(** ** Deduplication engine *)

(** Modelled from the spec: the comparison key of [dedupLogRows], which
    lives in [app/core/logs_model] (absent). "exact → raw
    text; numbers → raw text with digit runs replaced by a placeholder;
    signature → text with all non-alphabetic characters removed". *)
Definition normalizedKey (strategy : LogsDedupStrategy.t) (row : LogRow) : string :=
  match strategy with
  | LogsDedupStrategy.none => entry row
  | LogsDedupStrategy.exact => entry row
  | LogsDedupStrategy.numbers => replaceDigitRuns placeholder false (entry row)
  | LogsDedupStrategy.signature => keepAlphabetic (entry row)
  end.

Definition sameKey (strategy : LogsDedupStrategy.t) (a b : LogRow) : bool :=
  bool_decide (normalizedKey strategy a = normalizedKey strategy b).

(** Modelled from the spec: the linear pass of [dedupLogRows]
    ([app/core/logs_model], absent). "Walk the sequence in order,
    maintaining a current candidate row. ... If the next row's normalized key
    equals the current candidate's normalized key, increment the candidate's
    duplicate count by one and discard the next row; otherwise emit the
    candidate and make the next row the new candidate. Emit the final
    candidate at the end." A row that becomes the candidate is a new record
    whose count starts at zero: a non-[none] strategy applies new duplicate
    counts, and the count of a surviving row is the number of rows it
    absorbed. *)
Fixpoint dedupWalk (strategy : LogsDedupStrategy.t)
    (candidate : LogRow) (rest : list LogRow) : list LogRow :=
  match rest with
  | [] => [candidate]
  | next :: rest' =>
      if sameKey strategy next candidate
      then dedupWalk strategy (withDuplicates candidate (S (duplicates candidate))) rest'
      else candidate :: dedupWalk strategy (withDuplicates next 0) rest'
  end.

(** Modelled from the spec: [dedupRows(rows, strategy)], the contract of
    the absent [dedupLogRows] on row sequences. "[none]: returns the input
    sequence unchanged". *)
Definition dedupRows (rs : list LogRow) (strategy : LogsDedupStrategy.t) : list LogRow :=
  match strategy with
  | LogsDedupStrategy.none => rs
  | _ =>
      match rs with
      | [] => []
      | first :: rest => dedupWalk strategy (withDuplicates first 0) rest
      end
  end.

(** Modelled from the spec: [dedupLogRows] of [app/core/logs_model]
    (absent), as [Logs.render] calls it: a model in, a model out, the rows
    deduplicated and the other fields passed through. *)
Definition dedupLogRows (logs : LogsModel) (strategy : LogsDedupStrategy.t) : LogsModel :=
  withRows logs (dedupRows (rows logs) strategy).

(** The runs the linear pass forms, in the spec's words: each candidate
    with the rows it absorbed. [absorbed] collects, in order, the rows the
    current candidate has absorbed so far. *)
Fixpoint runsWalk (strategy : LogsDedupStrategy.t)
    (candidate : LogRow) (absorbed : list LogRow) (rest : list LogRow)
    : list (LogRow * list LogRow) :=
  match rest with
  | [] => [(candidate, absorbed)]
  | next :: rest' =>
      if sameKey strategy next candidate
      then runsWalk strategy candidate (absorbed ++ [next]) rest'
      else (candidate, absorbed) :: runsWalk strategy next [] rest'
  end.

Definition runsOf (strategy : LogsDedupStrategy.t) (rs : list LogRow)
    : list (LogRow * list LogRow) :=
  match rs with
  | [] => []
  | first :: rest => runsWalk strategy first [] rest
  end.

(** A run as it lies in the input, and the row that survives it. *)
Definition runRows (run : LogRow * list LogRow) : list LogRow := run.1 :: run.2.
Definition survivor (run : LogRow * list LogRow) : LogRow :=
  withDuplicates run.1 (length run.2).

(** ** Log-level filter *)

Definition isHidden (hidden : gset LogLevel) (row : LogRow) : bool :=
  match logLevel row with
  | Some level => bool_decide (level ∈ hidden)
  | None => false
  end.

(** Modelled from the spec: [filterLogLevels] of [app/core/logs_model]
    (absent). "Returns a new model whose row sequence excludes every row
    whose level is a member of [hidden]; rows with no assigned level are never
    filtered out. Meta and series fields pass through unchanged". *)
Definition filterLogLevels (logs : LogsModel) (hidden : gset LogLevel) : LogsModel :=
  withRows logs (filter (λ row, negb (isHidden hidden row)) (rows logs)).

(** [dedupedData.rows.reduce((sum, row) => sum + row.duplicates, 0)] *)
Definition dedupCount (rs : list LogRow) : nat :=
  foldl (λ sum row, sum + duplicates row) 0 rs.

(** ** The [Logs] component *)

Definition PREVIEW_LIMIT : nat := 100.

Record LogsProps := {
  data : LogsModel;
  highlighterExpressions : list string;
  loading : bool;
  scanning : bool
}.

Record LogsState := {
  dedup : LogsDedupStrategy.t;
  deferLogs : bool;
  hiddenLogLevels : gset LogLevel;
  renderAll : bool;
  showLabels : option bool; (* Tristate: null means auto *)
  showLocalTime : bool;
  showUtc : bool
}.

Definition initialState : LogsState :=
  {| dedup := LogsDedupStrategy.none;
     deferLogs := true;
     hiddenLogLevels := ∅;
     renderAll := false;
     showLabels := None;
     showLocalTime := true;
     showUtc := false |}.

(** The object handed to [setState]: the fields it names. *)
Record StateUpdate := {
  setDedup : option LogsDedupStrategy.t;
  setDeferLogs : option bool;
  setHiddenLogLevels : option (gset LogLevel);
  setRenderAll : option bool;
  setShowLabels : option (option bool);
  setShowLocalTime : option bool;
  setShowUtc : option bool
}.

Definition noUpdate : StateUpdate :=
  {| setDedup := None; setDeferLogs := None; setHiddenLogLevels := None;
     setRenderAll := None; setShowLabels := None; setShowLocalTime := None;
     setShowUtc := None |}.

(** The shallow merge [setState] performs. *)
Definition mergeState (st : LogsState) (u : StateUpdate) : LogsState :=
  {| dedup := default (dedup st) (setDedup u);
     deferLogs := default (deferLogs st) (setDeferLogs u);
     hiddenLogLevels := default (hiddenLogLevels st) (setHiddenLogLevels u);
     renderAll := default (renderAll st) (setRenderAll u);
     showLabels := default (showLabels st) (setShowLabels u);
     showLocalTime := default (showLocalTime st) (setShowLocalTime u);
     showUtc := default (showUtc st) (setShowUtc u) |}.

(** The two closures the component hands to [setTimeout]:
    [() => this.setState({ deferLogs: false, renderAll })] with the
    [renderAll] it captured, and [() => this.setState({ renderAll: true })]. *)
Inductive TimerCallback :=
  | DeferLogsDone (capturedRenderAll : bool)
  | RevealAll.

(** A pending timer of the event loop: set at [setAt] with [delay] ms. *)
Record Timer := {
  timerId : nat;
  setAt : nat;
  delay : nat;
  callback : TimerCallback
}.

Definition due (t : Timer) : nat := setAt t + delay t.

Inductive Lifecycle := Constructed | Mounted | Unmounted.

(** A component instance together with the part of the event loop it
    talks to: the clock (ms), the pending timers, and the record of the
    [setState] calls made so far (latest first). *)
Record Logs := {
  props : LogsProps;
  state : LogsState;
  deferLogsTimer : option nat;
  renderAllTimer : option nat;
  lifecycle : Lifecycle;
  clock : nat;
  nextTimerId : nat;
  pendingTimers : list Timer;
  setStateCalls : list StateUpdate
}.

Definition newLogs (p : LogsProps) : Logs :=
  {| props := p; state := initialState;
     deferLogsTimer := None; renderAllTimer := None;
     lifecycle := Constructed;
     clock := 0; nextTimerId := 1; pendingTimers := []; setStateCalls := [] |}.

Definition withProps (p : LogsProps) (w : Logs) : Logs :=
  {| props := p; state := state w;
     deferLogsTimer := deferLogsTimer w; renderAllTimer := renderAllTimer w;
     lifecycle := lifecycle w; clock := clock w; nextTimerId := nextTimerId w;
     pendingTimers := pendingTimers w; setStateCalls := setStateCalls w |}.

Definition withState (st : LogsState) (w : Logs) : Logs :=
  {| props := props w; state := st;
     deferLogsTimer := deferLogsTimer w; renderAllTimer := renderAllTimer w;
     lifecycle := lifecycle w; clock := clock w; nextTimerId := nextTimerId w;
     pendingTimers := pendingTimers w; setStateCalls := setStateCalls w |}.

Definition withDeferLogsTimer (id : option nat) (w : Logs) : Logs :=
  {| props := props w; state := state w;
     deferLogsTimer := id; renderAllTimer := renderAllTimer w;
     lifecycle := lifecycle w; clock := clock w; nextTimerId := nextTimerId w;
     pendingTimers := pendingTimers w; setStateCalls := setStateCalls w |}.

Definition withRenderAllTimer (id : option nat) (w : Logs) : Logs :=
  {| props := props w; state := state w;
     deferLogsTimer := deferLogsTimer w; renderAllTimer := id;
     lifecycle := lifecycle w; clock := clock w; nextTimerId := nextTimerId w;
     pendingTimers := pendingTimers w; setStateCalls := setStateCalls w |}.

Definition withLifecycle (l : Lifecycle) (w : Logs) : Logs :=
  {| props := props w; state := state w;
     deferLogsTimer := deferLogsTimer w; renderAllTimer := renderAllTimer w;
     lifecycle := l; clock := clock w; nextTimerId := nextTimerId w;
     pendingTimers := pendingTimers w; setStateCalls := setStateCalls w |}.

Definition withClock (now : nat) (w : Logs) : Logs :=
  {| props := props w; state := state w;
     deferLogsTimer := deferLogsTimer w; renderAllTimer := renderAllTimer w;
     lifecycle := lifecycle w; clock := now; nextTimerId := nextTimerId w;
     pendingTimers := pendingTimers w; setStateCalls := setStateCalls w |}.

Definition withTimers (next : nat) (ts : list Timer) (w : Logs) : Logs :=
  {| props := props w; state := state w;
     deferLogsTimer := deferLogsTimer w; renderAllTimer := renderAllTimer w;
     lifecycle := lifecycle w; clock := clock w; nextTimerId := next;
     pendingTimers := ts; setStateCalls := setStateCalls w |}.

Definition withSetStateCalls (calls : list StateUpdate) (w : Logs) : Logs :=
  {| props := props w; state := state w;
     deferLogsTimer := deferLogsTimer w; renderAllTimer := renderAllTimer w;
     lifecycle := lifecycle w; clock := clock w; nextTimerId := nextTimerId w;
     pendingTimers := pendingTimers w; setStateCalls := calls |}.

(** *** Timers *)

(** [setTimeout(callback, ms)]: queues the timer and returns its id. *)
Definition setTimeout (cb : TimerCallback) (ms : nat) (w : Logs) : nat * Logs :=
  let id := nextTimerId w in
  (id, withTimers (S id)
         (pendingTimers w ++
            [{| timerId := id; setAt := clock w; delay := ms; callback := cb |}]) w).

(** [clearTimeout(id)]: drops the timer; an [undefined] id or one that is
    no longer pending changes nothing. *)
Definition clearTimeout (id : option nat) (w : Logs) : Logs :=
  match id with
  | None => w
  | Some i =>
      withTimers (nextTimerId w)
        (filter (λ t, timerId t ≠ i) (pendingTimers w)) w
  end.

(** *** Lifecycle and [setState] *)

Definition componentDidUpdate (prevState : LogsState) (w : Logs) : Logs :=
  (* Staged rendering *)
  if deferLogs prevState && negb (deferLogs (state w)) && negb (renderAll (state w))
  then
    let '(id, w') := setTimeout RevealAll 2000 w in
    withRenderAllTimer (Some id) w'
  else w.

(** [this.setState(update)]: the call is recorded; on a mounted component
    the update is merged and [componentDidUpdate] runs with the previous
    state; on an unmounted one React drops the update. *)
Definition setState (u : StateUpdate) (w : Logs) : Logs :=
  let w1 := withSetStateCalls (u :: setStateCalls w) w in
  match lifecycle w with
  | Mounted =>
      let prevState := state w in
      componentDidUpdate prevState (withState (mergeState prevState u) w1)
  | _ => w1
  end.

(** [data && data.rows ? data.rows.length : 0]; a model always has its
    row array, so this is its length. *)
Definition rowCount (p : LogsProps) : nat := length (rows (data p)).

Definition componentDidMount (w : Logs) : Logs :=
  (* Staged rendering *)
  if deferLogs (state w)
  then
    let rowCount := rowCount (props w) in
    (* Render all right away if not too far over the limit *)
    let renderAll := rowCount <=? PREVIEW_LIMIT * 2 in
    let '(id, w') := setTimeout (DeferLogsDone renderAll) rowCount w in
    withDeferLogsTimer (Some id) w'
  else w.

Definition componentWillUnmount (w : Logs) : Logs :=
  clearTimeout (renderAllTimer w) (clearTimeout (deferLogsTimer w) w).

(** [{ deferLogs: false, renderAll }] and [{ renderAll: true }]. *)
Definition deferLogsDoneUpdate (capturedRenderAll : bool) : StateUpdate :=
  {| setDedup := None; setDeferLogs := Some false; setHiddenLogLevels := None;
     setRenderAll := Some capturedRenderAll; setShowLabels := None;
     setShowLocalTime := None; setShowUtc := None |}.

Definition revealAllUpdate : StateUpdate :=
  {| setDedup := None; setDeferLogs := None; setHiddenLogLevels := None;
     setRenderAll := Some true; setShowLabels := None;
     setShowLocalTime := None; setShowUtc := None |}.

Definition runCallback (cb : TimerCallback) (w : Logs) : Logs :=
  match cb with
  | DeferLogsDone capturedRenderAll => setState (deferLogsDoneUpdate capturedRenderAll) w
  | RevealAll => setState revealAllUpdate w
  end.

(** *** Handlers *)

Definition onChangeDedup (dedup' : LogsDedupStrategy.t) (w : Logs) : Logs :=
  setState
    (let prevState := state w in
     if bool_decide (dedup prevState = dedup')
     then {| setDedup := Some LogsDedupStrategy.none; setDeferLogs := None;
             setHiddenLogLevels := None; setRenderAll := None; setShowLabels := None;
             setShowLocalTime := None; setShowUtc := None |}
     else {| setDedup := Some dedup'; setDeferLogs := None;
             setHiddenLogLevels := None; setRenderAll := None; setShowLabels := None;
             setShowLocalTime := None; setShowUtc := None |}) w.

Definition onChangeLabels (checked : bool) (w : Logs) : Logs :=
  setState
    {| setDedup := None; setDeferLogs := None; setHiddenLogLevels := None;
       setRenderAll := None; setShowLabels := Some (Some checked);
       setShowLocalTime := None; setShowUtc := None |} w.

Definition onChangeLocalTime (checked : bool) (w : Logs) : Logs :=
  setState
    {| setDedup := None; setDeferLogs := None; setHiddenLogLevels := None;
       setRenderAll := None; setShowLabels := None;
       setShowLocalTime := Some checked; setShowUtc := None |} w.

Definition onChangeUtc (checked : bool) (w : Logs) : Logs :=
  setState
    {| setDedup := None; setDeferLogs := None; setHiddenLogLevels := None;
       setRenderAll := None; setShowLabels := None;
       setShowLocalTime := None; setShowUtc := Some checked |} w.

(** [hidden] is the set [onToggleLogLevel] builds from the raw levels
    the graph reports, each looked up in the [LogLevel] enumeration. *)
Definition onToggleLogLevel (hidden : gset LogLevel) (w : Logs) : Logs :=
  setState
    {| setDedup := None; setDeferLogs := None; setHiddenLogLevels := Some hidden;
       setRenderAll := None; setShowLabels := None;
       setShowLocalTime := None; setShowUtc := None |} w.

(** *** Events *)

(** What can happen to an instance: React mounts and unmounts it and
    hands it new props, time passes, the event loop runs a timer that is
    due, and the user operates the controls. *)
Inductive Event :=
  | Mount
  | Unmount
  | ReceiveProps (p : LogsProps)
  | Elapse (ms : nat)
  | Fire (id : nat)
  | ChangeDedup (dedup' : LogsDedupStrategy.t)
  | ChangeLabels (checked : bool)
  | ChangeLocalTime (checked : bool)
  | ChangeUtc (checked : bool)
  | ToggleLogLevel (hidden : gset LogLevel).

(** The event loop runs the pending timer [id] once its delay has
    elapsed; a timer that is not pending, or not yet due, does not run. *)
Definition fire (id : nat) (w : Logs) : Logs :=
  match list_find (λ t, timerId t = id) (pendingTimers w) with
  | Some (_, t) =>
      if due t <=? clock w
      then runCallback (callback t)
             (withTimers (nextTimerId w)
                (filter (λ t', timerId t' ≠ id) (pendingTimers w)) w)
      else w
  | None => w
  end.

(** The controls exist, and props arrive, only while the component is
    mounted. *)
Definition whenMounted (f : Logs → Logs) (w : Logs) : Logs :=
  match lifecycle w with
  | Mounted => f w
  | _ => w
  end.

Definition step (e : Event) (w : Logs) : Logs :=
  match e with
  | Mount =>
      match lifecycle w with
      | Constructed => componentDidMount (withLifecycle Mounted w)
      | _ => w
      end
  | Unmount => whenMounted (λ w, withLifecycle Unmounted (componentWillUnmount w)) w
  | ReceiveProps p => whenMounted (λ w, componentDidUpdate (state w) (withProps p w)) w
  | Elapse ms => withClock (clock w + ms) w
  | Fire id => fire id w
  | ChangeDedup dedup' => whenMounted (onChangeDedup dedup') w
  | ChangeLabels checked => whenMounted (onChangeLabels checked) w
  | ChangeLocalTime checked => whenMounted (onChangeLocalTime checked) w
  | ChangeUtc checked => whenMounted (onChangeUtc checked) w
  | ToggleLogLevel hidden => whenMounted (onToggleLogLevel hidden) w
  end.

Definition run (events : list Event) (w : Logs) : Logs :=
  foldl (λ w e, step e w) w events.

(** The instances an instance constructed with props [p0] can become. *)
Inductive reachable (p0 : LogsProps) : Logs → Prop :=
  | reachable_new : reachable p0 (newLogs p0)
  | reachable_step e w : reachable p0 w → reachable p0 (step e w).

(** The phases of the staged renderer, read off the state. *)
Inductive Phase := deferring | previewOnly | full.

Definition phase (st : LogsState) : Phase :=
  if deferLogs st then deferring
  else if renderAll st then full else previewOnly.

(** *** [render] *)

Record RowProps := {
  allRows : list LogRow;
  rowHighlighterExpressions : option (list string);
  row : LogRow;
  showDuplicates : bool;
  rowShowLabels : bool;
  rowShowLocalTime : bool;
  rowShowUtc : bool
}.

Inductive SpanChild :=
  | Text (s : string)
  | NumberText (n : nat).

(** The children of [<div className="logs-rows">]: [<Row>] elements,
    with the operands of their [key], and the [<span>] placeholder. *)
Inductive RowsChild :=
  | RowElement (reactKey : string * nat) (p : RowProps)
  | Span (children : list SpanChild).

Record LogsView := {
  metaPanel : option (list LogsMetaItem);
  logsRows : list RowsChild;
  noDataPanel : bool;
  scanPanel : bool
}.

(** [dedupedData.rows] of [render]. *)
Definition processedRows (p : LogsProps) (st : LogsState) : list LogRow :=
  let filteredData := filterLogLevels (data p) (hiddenLogLevels st) in
  let dedupedData := dedupLogRows filteredData (dedup st) in
  rows dedupedData.

Definition render (p : LogsProps) (st : LogsState) : LogsView :=
  let hasData := 0 <? length (rows (data p)) in
  let showDuplicates := bool_decide (dedup st ≠ LogsDedupStrategy.none) in
  (* Filtering *)
  let processedRows := processedRows p st in
  let dedupCount := dedupCount processedRows in
  let meta :=
    meta (data p) ++
    (if bool_decide (dedup st ≠ LogsDedupStrategy.none)
     then [{| label := "Dedup count"; value := NumberValue dedupCount;
              kind := LogsMetaKind.Number |}]
     else []) in
  (* Staged rendering *)
  let firstRows := take PREVIEW_LIMIT processedRows in
  let lastRows := drop PREVIEW_LIMIT processedRows in
  (* Check for labels *)
  let showLabels :=
    match showLabels st with
    | Some shown => shown
    | None =>
        if hasData
        then existsb (λ row, 0 <? size (uniqueLabels row)) (rows (data p))
        else true
    end in
  let rowElement highlighter row :=
    RowElement (key row, duplicates row)
      {| allRows := processedRows; rowHighlighterExpressions := highlighter;
         row := row; showDuplicates := showDuplicates; rowShowLabels := showLabels;
         rowShowLocalTime := showLocalTime st; rowShowUtc := showUtc st |} in
  {| metaPanel := if hasData then Some meta else None;
     logsRows :=
       (if hasData && negb (deferLogs st)
        (* Only inject highlighterExpression in the first set for performance reasons *)
        then rowElement (Some (highlighterExpressions p)) <$> firstRows
        else []) ++
       (if hasData && negb (deferLogs st) && renderAll st
        then rowElement None <$> lastRows
        else []) ++
       (if hasData && deferLogs st
        then [Span [Text "Rendering "; NumberText (length processedRows);
                    Text " rows..."]]
        else []);
     noDataPanel := negb (loading p) && negb hasData && negb (scanning p);
     scanPanel := scanning p |}.

(** The rows the view shows, in display order. *)
Definition childRow (child : RowsChild) : option LogRow :=
  match child with
  | RowElement _ p => Some (row p)
  | Span _ => None
  end.

Definition renderedRows (v : LogsView) : list LogRow :=
  omap childRow (logsRows v).

(** The placeholder [<span>Rendering {n} rows...</span>]. *)
Definition renderingSpan (n : nat) : RowsChild :=
  Span [Text "Rendering "; NumberText n; Text " rows..."].

(** What is on screen for an instance. *)
Definition view (w : Logs) : LogsView := render (props w) (state w).

(** *** The invariant of the staged renderer *)

(** What holds of every instance constructed with props [p0]: a pending
    timer was set in the past; the component is in the preview phase only
    if it was mounted on more than twice [PREVIEW_LIMIT] rows; and the
    pending timers are exactly those the phase calls for, their ids kept
    in the instance fields. *)
Definition stagedInv (p0 : LogsProps) (w : Logs) : Prop :=
  let rowCount := rowCount p0 in
  (phase (state w) = previewOnly → PREVIEW_LIMIT * 2 < rowCount) ∧
  Forall (λ t, setAt t ≤ clock w) (pendingTimers w) ∧
  match lifecycle w with
  | Constructed =>
      props w = p0 ∧ state w = initialState ∧ pendingTimers w = [] ∧
      setStateCalls w = []
  | Mounted =>
      match phase (state w) with
      | deferring =>
          ∃ t, pendingTimers w = [t] ∧ deferLogsTimer w = Some (timerId t) ∧
               delay t = rowCount ∧
               callback t = DeferLogsDone (rowCount <=? PREVIEW_LIMIT * 2)
      | previewOnly =>
          ∃ t, pendingTimers w = [t] ∧ renderAllTimer w = Some (timerId t) ∧
               delay t = 2000 ∧ callback t = RevealAll
      | full => pendingTimers w = []
      end
  | Unmounted => pendingTimers w = []
  end.

End Model.

Arguments LogRow : clear implicits.
Arguments LogsModel : clear implicits.
Arguments LogsProps : clear implicits.
Arguments LogsState LogLevel {_ _}.
Arguments StateUpdate LogLevel {_ _}.
Arguments Logs LogLevel {_ _} Series.
Arguments Event LogLevel {_ _} Series.
Arguments RowProps : clear implicits.
Arguments RowsChild : clear implicits.
Arguments LogsView : clear implicits.

(** * More of the panel *)

Section Panel.
Context {LogLevel : Type} {LogLevel_eq : EqDecision LogLevel}
  {LogLevel_countable : Countable LogLevel} {Series : Type}.

(** The order in which the staged renderer goes through its phases. *)
Definition phaseRank (ph : Phase) : nat :=
  match ph with
  | deferring => 0
  | previewOnly => 1
  | full => 2
  end.

(** The events that come from the controls of the panel, or from the
    parent handing down new props. *)
Definition isControl (e : Event LogLevel Series) : bool :=
  match e with
  | ReceiveProps _ | ChangeDedup _ | ChangeLabels _ | ChangeLocalTime _
  | ChangeUtc _ | ToggleLogLevel _ => true
  | Mount | Unmount | Elapse _ | Fire _ => false
  end.

(** [data.rows.some(row => _.size(row.uniqueLabels) > 0)] as a proposition. *)
Definition someRowHasLabels (rs : list (LogRow LogLevel)) : Prop :=
  ∃ r, r ∈ rs ∧ uniqueLabels r ≠ ∅.

End Panel.

(** * The [Row] component *)

Module RowComponent.
Section Component.
Context {LogLevel : Type} {LogLevel_eq : EqDecision LogLevel}
  {LogLevel_countable : Countable LogLevel}.

(** What the row takes from [app/core/logs_model]: the matcher and the
    statistics types, a parser as the row uses it, [getParser],
    [calculateFieldStats] and the [count] of a statistic. Of the parser's
    [fieldRegex] the row uses two things: the groups 1 and 2 of its first
    match in a text ([fieldText.match(parser.fieldRegex)]) and the substrings
    it matches in a text under the global flag. [trim] is
    [String.prototype.trim]. *)
Context {Matcher LogsLabelStat : Type}.

Record LogsParser := {
  fieldRegexMatch : string → option (string * string);
  fieldRegexMatches : string → list string;
  buildMatcher : string → Matcher
}.

Variable getParser : string → option LogsParser.
Variable calculateFieldStats : list (LogRow LogLevel) → Matcher → list LogsLabelStat.
Variable statCount : LogsLabelStat → nat.
Variable trim : string → string.

Record RowState := {
  fieldCount : nat;
  fieldLabel : option string;
  fieldStats : option (list LogsLabelStat);
  fieldValue : option string;
  parsed : bool;
  parser : option LogsParser;
  parsedFieldHighlights : list string;
  showFieldStats : bool
}.

Definition initialState : RowState :=
  {| fieldCount := 0; fieldLabel := None; fieldStats := None; fieldValue := None;
     parsed := false; parser := None; parsedFieldHighlights := [];
     showFieldStats := false |}.

(** A pending [setTimeout(this.parseMessage, delay)]. *)
Record HoverTimer := {
  hoverTimerId : nat;
  hoverSetAt : nat;
  hoverDelay : nat
}.

(** A mounted row with what surrounds it: whether the pointer is over
    its message, the clock (ms), the pending timers, the number of [setState]
    calls made and of [TypeError]s thrown so far. *)
Record Component := {
  props : RowProps LogLevel;
  state : RowState;
  mouseMessageTimer : option nat;
  mounted : bool;
  hovering : bool;
  clock : nat;
  nextTimerId : nat;
  pendingTimers : list HoverTimer;
  setStateCalls : nat;
  typeErrors : nat
}.

Definition new (p : RowProps LogLevel) : Component :=
  {| props := p; state := initialState; mouseMessageTimer := None;
     mounted := true; hovering := false; clock := 0; nextTimerId := 1;
     pendingTimers := []; setStateCalls := 0; typeErrors := 0 |}.

Definition withProps (p : RowProps LogLevel) (w : Component) : Component :=
  {| props := p; state := state w; mouseMessageTimer := mouseMessageTimer w;
     mounted := mounted w; hovering := hovering w; clock := clock w;
     nextTimerId := nextTimerId w; pendingTimers := pendingTimers w;
     setStateCalls := setStateCalls w; typeErrors := typeErrors w |}.

Definition withState (st : RowState) (calls : nat) (w : Component) : Component :=
  {| props := props w; state := st; mouseMessageTimer := mouseMessageTimer w;
     mounted := mounted w; hovering := hovering w; clock := clock w;
     nextTimerId := nextTimerId w; pendingTimers := pendingTimers w;
     setStateCalls := calls; typeErrors := typeErrors w |}.

Definition withMouseMessageTimer (id : option nat) (w : Component) : Component :=
  {| props := props w; state := state w; mouseMessageTimer := id;
     mounted := mounted w; hovering := hovering w; clock := clock w;
     nextTimerId := nextTimerId w; pendingTimers := pendingTimers w;
     setStateCalls := setStateCalls w; typeErrors := typeErrors w |}.

Definition withPointer (isMounted over : bool) (w : Component) : Component :=
  {| props := props w; state := state w; mouseMessageTimer := mouseMessageTimer w;
     mounted := isMounted; hovering := over; clock := clock w;
     nextTimerId := nextTimerId w; pendingTimers := pendingTimers w;
     setStateCalls := setStateCalls w; typeErrors := typeErrors w |}.

Definition withClock (now : nat) (w : Component) : Component :=
  {| props := props w; state := state w; mouseMessageTimer := mouseMessageTimer w;
     mounted := mounted w; hovering := hovering w; clock := now;
     nextTimerId := nextTimerId w; pendingTimers := pendingTimers w;
     setStateCalls := setStateCalls w; typeErrors := typeErrors w |}.

Definition withTimers (next : nat) (ts : list HoverTimer) (w : Component) : Component :=
  {| props := props w; state := state w; mouseMessageTimer := mouseMessageTimer w;
     mounted := mounted w; hovering := hovering w; clock := clock w;
     nextTimerId := next; pendingTimers := ts;
     setStateCalls := setStateCalls w; typeErrors := typeErrors w |}.

Definition withTypeError (w : Component) : Component :=
  {| props := props w; state := state w; mouseMessageTimer := mouseMessageTimer w;
     mounted := mounted w; hovering := hovering w; clock := clock w;
     nextTimerId := nextTimerId w; pendingTimers := pendingTimers w;
     setStateCalls := setStateCalls w; typeErrors := S (typeErrors w) |}.

Definition setTimeout (ms : nat) (w : Component) : nat * Component :=
  let id := nextTimerId w in
  (id, withTimers (S id)
         (pendingTimers w ++
            [{| hoverTimerId := id; hoverSetAt := clock w; hoverDelay := ms |}]) w).

Definition clearTimeout (id : option nat) (w : Component) : Component :=
  match id with
  | None => w
  | Some i =>
      withTimers (nextTimerId w)
        (filter (λ t, hoverTimerId t ≠ i) (pendingTimers w)) w
  end.

(** [this.setState(...)]: the call is counted; React applies the update
    on a mounted component only. *)
Definition setState (update : RowState → RowState) (w : Component) : Component :=
  withState (if mounted w then update (state w) else state w) (S (setStateCalls w)) w.

Definition componentWillUnmount (w : Component) : Component :=
  clearTimeout (mouseMessageTimer w) w.

Definition onClickClose (w : Component) : Component :=
  setState (λ st,
    {| fieldCount := fieldCount st; fieldLabel := fieldLabel st;
       fieldStats := fieldStats st; fieldValue := fieldValue st;
       parsed := parsed st; parser := parser st;
       parsedFieldHighlights := parsedFieldHighlights st;
       showFieldStats := false |}) w.

(** [None] stands for the [TypeError] of reading [fieldRegex] off a
    [null] parser. *)
Definition onClickHighlight (fieldText : string) (w : Component) : option Component :=
  match parser (state w) with
  | None => None
  | Some activeParser =>
      match fieldRegexMatch activeParser fieldText with
      | Some (fieldLabel, fieldValue) =>
          (* Build value-agnostic row matcher based on the field label *)
          let matcher := buildMatcher activeParser fieldLabel in
          let fieldStats := calculateFieldStats (allRows (props w)) matcher in
          let fieldCount := foldl (λ sum stat, sum + statCount stat) 0 fieldStats in
          Some (setState (λ st,
            {| fieldCount := fieldCount; fieldLabel := Some fieldLabel;
               fieldStats := Some fieldStats; fieldValue := Some fieldValue;
               parsed := parsed st; parser := parser st;
               parsedFieldHighlights := parsedFieldHighlights st;
               showFieldStats := true |}) w)
      | None => Some w
      end
  end.

Definition onMouseOverMessage (w : Component) : Component :=
  (* Don't parse right away, user might move along *)
  let '(id, w') := setTimeout 500 w in
  withMouseMessageTimer (Some id) w'.

Definition onMouseOutMessage (w : Component) : Component :=
  setState (λ st,
    {| fieldCount := fieldCount st; fieldLabel := fieldLabel st;
       fieldStats := fieldStats st; fieldValue := fieldValue st;
       parsed := false; parser := parser st;
       parsedFieldHighlights := parsedFieldHighlights st;
       showFieldStats := showFieldStats st |})
    (clearTimeout (mouseMessageTimer w) w).

Definition parseMessage (w : Component) : Component :=
  if negb (parsed (state w))
  then
    match getParser (entry (row (props w))) with
    | Some foundParser =>
        (* Use parser to highlight detected fields *)
        let parsedFieldHighlights :=
          trim <$> fieldRegexMatches foundParser (entry (row (props w))) in
        setState (λ st,
          {| fieldCount := fieldCount st; fieldLabel := fieldLabel st;
             fieldStats := fieldStats st; fieldValue := fieldValue st;
             parsed := true; parser := Some foundParser;
             parsedFieldHighlights := parsedFieldHighlights;
             showFieldStats := showFieldStats st |}) w
    | None => w
    end
  else w.

(** *** Events *)

(** The pointer enters and leaves the message (the two alternate), the
    user clicks the icon of a highlighted field (there is one only in the
    highlighter of a parsed row) or closes the statistics, the parent hands
    down new props, time passes, the event loop runs a timer that is due, and
    React unmounts the row. *)
Inductive Event :=
  | MouseEnter
  | MouseLeave
  | ClickHighlight (fieldText : string)
  | ClickClose
  | ReceiveProps (p : RowProps LogLevel)
  | Elapse (ms : nat)
  | Fire (id : nat)
  | Unmount.

Definition dueAt (t : HoverTimer) : nat := hoverSetAt t + hoverDelay t.

Definition fire (id : nat) (w : Component) : Component :=
  match list_find (λ t, hoverTimerId t = id) (pendingTimers w) with
  | Some (_, t) =>
      if dueAt t <=? clock w
      then parseMessage
             (withTimers (nextTimerId w)
                (filter (λ t', hoverTimerId t' ≠ id) (pendingTimers w)) w)
      else w
  | None => w
  end.

Definition step (e : Event) (w : Component) : Component :=
  match e with
  | MouseEnter =>
      if mounted w && negb (hovering w)
      then onMouseOverMessage (withPointer true true w)
      else w
  | MouseLeave =>
      if mounted w && hovering w
      then onMouseOutMessage (withPointer true false w)
      else w
  | ClickHighlight fieldText =>
      if mounted w && parsed (state w)
      then match onClickHighlight fieldText w with
           | Some w' => w'
           | None => withTypeError w
           end
      else w
  | ClickClose =>
      if mounted w && showFieldStats (state w) then onClickClose w else w
  | ReceiveProps p => if mounted w then withProps p w else w
  | Elapse ms => withClock (clock w + ms) w
  | Fire id => fire id w
  | Unmount =>
      if mounted w then withPointer false false (componentWillUnmount w) else w
  end.

Definition run (events : list Event) (w : Component) : Component :=
  foldl (λ w e, step e w) w events.

Inductive reachable (p0 : RowProps LogLevel) : Component → Prop :=
  | reachable_new : reachable p0 (new p0)
  | reachable_step e w : reachable p0 w → reachable p0 (step e w).

(** *** [render] *)

Definition previewHighlights (p : RowProps LogLevel) : bool :=
  match rowHighlighterExpressions p with
  | Some expressions => negb (bool_decide (Some expressions = searchWords (row p)))
  | None => false
  end.

Definition highlights (p : RowProps LogLevel) : option (list string) :=
  if previewHighlights p then rowHighlighterExpressions p else searchWords (row p).

Definition needsHighlighter (p : RowProps LogLevel) : bool :=
  match highlights p with
  | Some words => 0 <? length words
  | None => false
  end.

(** The children of [<div className="logs-row__message">]: the
    highlighter of parsed fields, the highlighter of search matches (with the
    preview class or without), the bare entry, the statistics. *)
Inductive MessageChild :=
  | FieldHighlighter (textToHighlight : string) (words : list string)
  | MatchHighlighter (textToHighlight : string) (words : list string) (preview : bool)
  | PlainEntry (text : string)
  | StatsBox (stats : option (list LogsLabelStat)) (statLabel statValue : option string)
      (statRowCount : nat).

(** The cells of a row: the duplicates cell with the [n] of its "nx",
    the level marker, the two time cells (title and text), the labels, the
    message. *)
Record RowView := {
  duplicatesCell : option (option nat);
  levelMarker : option LogLevel;
  utcCell : option (string * string);
  localTimeCell : option (string * string);
  labelsCell : option (gmap string string);
  message : list MessageChild
}.

Definition render (p : RowProps LogLevel) (st : RowState) : RowView :=
  let r := row p in
  {| duplicatesCell :=
       if showDuplicates p
       then Some (if 0 <? duplicates r then Some (duplicates r + 1) else None)
       else None;
     levelMarker := logLevel r;
     utcCell :=
       if rowShowUtc p
       then Some ("Local: " +:+ timeLocal r +:+ " (" +:+ timeFromNow r +:+ ")", timestamp r)
       else None;
     localTimeCell :=
       if rowShowLocalTime p
       then Some (timestamp r +:+ " (" +:+ timeFromNow r +:+ ")", timeLocal r)
       else None;
     labelsCell := if rowShowLabels p then Some (uniqueLabels r) else None;
     message :=
       (if parsed st then [FieldHighlighter (entry r) (parsedFieldHighlights st)] else []) ++
       (if negb (parsed st) && needsHighlighter p
        then [MatchHighlighter (entry r) (default [] (highlights p)) (previewHighlights p)]
        else []) ++
       (if negb (parsed st) && negb (needsHighlighter p) then [PlainEntry (entry r)] else []) ++
       (if showFieldStats st
        then [StatsBox (fieldStats st) (fieldLabel st) (fieldValue st) (fieldCount st)]
        else []) |}.

(** The main child of the message: what stands for the entry. *)
Definition isStatsBox (child : MessageChild) : bool :=
  match child with
  | StatsBox _ _ _ _ => true
  | _ => false
  end.

(** *** The invariant of the hover timer *)

Definition sumOfCounts (stats : option (list LogsLabelStat)) : nat :=
  foldl (λ sum stat, sum + statCount stat) 0 (default [] stats).

Definition hoverInv (w : Component) : Prop :=
  typeErrors w = 0
  ∧ (parsed (state w) = true → is_Some (parser (state w)))
  ∧ fieldCount (state w) = sumOfCounts (fieldStats (state w))
  ∧ (mounted w = false → hovering w = false)
  ∧ (hovering w = false →
       pendingTimers w = [] ∧ (mounted w = true → parsed (state w) = false))
  ∧ (hovering w = true →
       pendingTimers w = []
       ∨ ∃ t, pendingTimers w = [t] ∧ mouseMessageTimer w = Some (hoverTimerId t)
              ∧ hoverDelay t = 500 ∧ hoverSetAt t ≤ clock w).

End Component.
End RowComponent.

(** * The rows area as the rows render it *)

Section RowsArea.
Context {LogLevel : Type} {Matcher LogsLabelStat : Type}.

(** The number of input rows a rendered row stands for, as its
    duplicates cell tells it: the [n] of "nx", or one when the cell is empty
    or absent. *)
Definition shownMultiplicity (v : @RowComponent.RowView LogLevel LogsLabelStat) : nat :=
  match RowComponent.duplicatesCell v with
  | Some (Some n) => n
  | _ => 1
  end.

(** The same, added up over the [Row] children of the rows area, each
    row in the state [stateOf] gives it. *)
Definition shownRowTotal
    (stateOf : RowProps LogLevel → @RowComponent.RowState Matcher LogsLabelStat)
    (children : list (RowsChild LogLevel)) : nat :=
  sum_list
    ((λ child, match child with
               | RowElement _ p => shownMultiplicity (RowComponent.render p (stateOf p))
               | Span _ => 0
               end) <$> children).

End RowsArea.

(** * The Loki query field *)

Module LokiQueryField.

(** The double quote character. *)
Definition quote : string := String "034"%char EmptyString.

Fixpoint startsWith (pre text : string) : bool :=
  match pre, text with
  | EmptyString, _ => true
  | String a pre', String b text' => Ascii.eqb a b && startsWith pre' text'
  | String _ _, EmptyString => false
  end.

(** Skips [c] when the text starts with it: the [c?] of a pattern. *)
Definition skipOptional (c : ascii) (text : string) : string :=
  match text with
  | String c' rest => if Ascii.eqb c c' then rest else text
  | EmptyString => text
  end.

(** Whether [typeaheadText] matches the pattern of the source: at its
    start an optional [!], then [=], an optional [~] and a double quote, or
    else a double quote alone. *)
Definition matchesOperatorQuote (typeaheadText : string) : bool :=
  match skipOptional "!" typeaheadText with
  | String c rest => Ascii.eqb c "=" && startsWith quote (skipOptional "~" rest)
  | EmptyString => false
  end
  || startsWith quote typeaheadText.

(** The two fields of [QueryFieldState] the function reads. *)
Record QueryFieldState := {
  typeaheadContext : option string;
  typeaheadText : string
}.

(** [!nextChar]: [null] and the empty string are falsy. *)
Definition noNextChar (nextChar : option string) : bool :=
  match nextChar with
  | None => true
  | Some c => bool_decide (c = "")
  end.

(** [nextChar] is what [getNextCharacter()] of [utils/dom] returns where
    the function is called: [null], or the text of at most one character
    after the caret. *)
Definition willApplySuggestion (nextChar : option string) (suggestion : string)
    (st : QueryFieldState) : string :=
  (* Modify suggestion based on context *)
  if bool_decide (typeaheadContext st = Some "context-labels")
  then
    if noNextChar nextChar || bool_decide (nextChar = Some "}")
       || bool_decide (nextChar = Some ",")
    then suggestion +:+ "="
    else suggestion
  else if bool_decide (typeaheadContext st = Some "context-label-values")
  then
    (* Always add quotes and remove existing ones instead *)
    let suggestion :=
      if negb (matchesOperatorQuote (typeaheadText st))
      then quote +:+ suggestion
      else suggestion in
    if bool_decide (nextChar ≠ Some quote) then suggestion +:+ quote else suggestion
  else suggestion.

(** An option of the label chooser, with the [loading] flag
    [loadOptions] adds. *)
#[warnings="-register-all"]
Inductive CascaderOption := {
  label : string;
  value : string;
  children : option (list CascaderOption);
  disabled : option bool;
  loading : option bool
}.

Record LokiQueryFieldState := {
  logLabelOptions : list CascaderOption;
  syntaxLoaded : bool
}.

Section Field.
(** The values of the fields of a [DataQuery], with the strings among
    them. *)
Context {Value : Type}.
Variable stringValue : string → Value.

(** What a handler asks of its surroundings: the language provider to
    fetch the values of a label, the parent to take a changed query. *)
Inductive Effect :=
  | FetchLabelValues (labelName : string)
  | QueryChange (query : gmap string Value) (override : option bool).

(** How a handler ends: with the calls it made, or with a [TypeError]. *)
Inductive Outcome :=
  | Returned (effects : list Effect)
  | Threw.

Definition markLoading (targetOption option : CascaderOption) : CascaderOption :=
  if bool_decide (value option = value targetOption)
  then {| label := label option; value := value option; children := children option;
          disabled := disabled option; loading := Some true |}
  else option.

(** [hasLanguageProvider] tells whether the data source came with a
    language provider. With no option selected [targetOption] is [undefined]
    and reading its [value] throws; with no provider the options are marked
    and the call of [fetchLabelValues] throws. *)
Definition loadOptions (hasLanguageProvider : bool) (selectedOptions : list CascaderOption)
    (st : LokiQueryFieldState) : LokiQueryFieldState * Outcome :=
  match last selectedOptions with
  | None => (st, Threw)
  | Some targetOption =>
      let nextOptions := markLoading targetOption <$> logLabelOptions st in
      ({| logLabelOptions := nextOptions; syntaxLoaded := syntaxLoaded st |},
       if hasLanguageProvider
       then Returned [FetchLabelValues (value targetOption)]
       else Threw)
  end.

(** The props the query handlers read: [initialQuery], and whether
    [onQueryChange] was given. *)
Record QueryProps := {
  initialQuery : option (gmap string Value);
  hasOnQueryChange : bool
}.

Definition onChangeQuery (props : QueryProps) (text : string) (override : option bool)
    : list Effect :=
  (* Send text change to parent *)
  if hasOnQueryChange props
  then
    let query := <["expr" := stringValue text]> (default ∅ (initialQuery props)) in
    [QueryChange query override]
  else [].

Definition onChangeLogLabels (props : QueryProps) (selectedOptions : list CascaderOption)
    : list Effect :=
  match selectedOptions with
  | [keyOption; valueOption] =>
      let query :=
        "{" +:+ value keyOption +:+ "=" +:+ quote +:+ value valueOption +:+ quote +:+ "}" in
      onChangeQuery props query (Some true)
  | _ => []
  end.

End Field.
End LokiQueryField.

(** * The legal entities form *)

Module LegalEntitiesCtrl.
Section Ctrl.
(** A file picked in the form. *)
Context {File : Type}.

(** The controller with the reads it has started: each [FileReader] is
    known by a number, and [applyCalls] counts the calls of [$scope.$apply]. *)
Record Ctrl := {
  activeTabIndex : nat;
  logoSrc : option string;
  reading : list (nat * File);
  nextReader : nat;
  applyCalls : nat
}.

Definition new : Ctrl :=
  {| activeTabIndex := 0; logoSrc := Some ""; reading := []; nextReader := 0;
     applyCalls := 0 |}.

Definition activateTab (tabIndex : nat) (c : Ctrl) : Ctrl :=
  {| activeTabIndex := tabIndex; logoSrc := logoSrc c; reading := reading c;
     nextReader := nextReader c; applyCalls := applyCalls c |}.

(** [file] is [None] for a missing file. *)
Definition getFile (file : option File) (c : Ctrl) : Ctrl :=
  match file with
  | None => c
  | Some f =>
      {| activeTabIndex := activeTabIndex c; logoSrc := logoSrc c;
         reading := reading c ++ [(nextReader c, f)];
         nextReader := S (nextReader c); applyCalls := applyCalls c |}
  end.

(** [fileReader.onloadend]: [result] is [e.target.result], the data URL
    of the file or [null] when the read failed. *)
Definition onloadend (reader : nat) (result : option string) (c : Ctrl) : Ctrl :=
  {| activeTabIndex := activeTabIndex c; logoSrc := result;
     reading := filter (λ r, r.1 ≠ reader) (reading c);
     nextReader := nextReader c; applyCalls := S (applyCalls c) |}.

Inductive Event :=
  | ActivateTab (tabIndex : nat)
  | GetFile (file : option File)
  | LoadEnd (reader : nat) (result : option string).

(** A read ends once, and only one that was started. *)
Definition step (e : Event) (c : Ctrl) : Ctrl :=
  match e with
  | ActivateTab tabIndex => activateTab tabIndex c
  | GetFile file => getFile file c
  | LoadEnd reader result =>
      if bool_decide (reader ∈ (reading c).*1) then onloadend reader result c else c
  end.

Definition run (events : list Event) (c : Ctrl) : Ctrl :=
  foldl (λ c e, step e c) c events.

(** The readers that are reading. *)
Definition readsIds (c : Ctrl) : list nat := (reading c).*1.

(** The readers that are reading are distinct and were all started; no
    [$apply] yet means no logo yet. *)
Definition readsInv (c : Ctrl) : Prop :=
  NoDup (readsIds c) ∧ (∀ id, id ∈ readsIds c → id < nextReader c)
  ∧ (applyCalls c = 0 → logoSrc c = Some "").

End Ctrl.
End LegalEntitiesCtrl.

(** * Sample data *)

Module Samples.
Definition sampleRow (k text : string) (level : option string) : LogRow string :=
  {| key := k; entry := text;
     timestamp := "2018-12-03T10:15:00Z"; timeLocal := "2018-12-03 11:15:00";
     timeFromNow := "a minute ago";
     logLevel := level; uniqueLabels := ∅; duplicates := 0; searchWords := None |}.

Definition rowA : LogRow string := sampleRow "a" "connection reset by peer" (Some "error").
Definition rowB : LogRow string := sampleRow "b" "GET /health 200" (Some "info").
Definition rowPlain : LogRow string := sampleRow "c" "no level here" None.

Definition sampleModel (n : nat) : LogsModel string unit :=
  {| rows := replicate n rowA; meta := []; series := () |}.

Definition sampleProps (n : nat) : LogsProps string unit :=
  {| data := sampleModel n; highlighterExpressions := [];
     loading := false; scanning := false |}.

(** An instance just mounted on [n] rows. *)
Definition mounted (n : nat) : Logs string unit := step Mount (newLogs (sampleProps n)).

(** The panel mounted on [n] rows, after its defer timer has run. *)
Definition shown (n : nat) : Logs string unit := run [Elapse n; Fire 1] (mounted n).

(** A parser that takes a whole text for one field, statistics that are
    their own counts, and a row as the panel hands it to [Row]. *)
Definition sampleParser : @RowComponent.LogsParser string :=
  {| RowComponent.fieldRegexMatch := λ text, Some (text, "value");
     RowComponent.fieldRegexMatches := λ text, [text];
     RowComponent.buildMatcher := λ fieldLabel, fieldLabel |}.

Definition sampleGetParser (text : string) : option (@RowComponent.LogsParser string) :=
  if bool_decide (text = "") then None else Some sampleParser.

Definition sampleStats (rs : list (LogRow string)) (matcher : string) : list nat := [2; 1].

Definition sampleRowProps (expressions : option (list string)) : RowProps string :=
  {| allRows := [rowA; rowB]; rowHighlighterExpressions := expressions; row := rowA;
     showDuplicates := true; rowShowLabels := true; rowShowLocalTime := true;
     rowShowUtc := false |}.

Definition idleRow : @RowComponent.Component string string nat :=
  RowComponent.new (sampleRowProps None).

Definition sampleRowStep :=
  RowComponent.step (LogLevel:=string) sampleGetParser sampleStats id id.

(** The row after the pointer stayed 600 ms over its message, and after
    the pointer left again. *)
Definition parsedRow : @RowComponent.Component string string nat :=
  sampleRowStep (RowComponent.Fire 1)
    (sampleRowStep (RowComponent.Elapse 600)
       (sampleRowStep RowComponent.MouseEnter idleRow)).


Definition levelOption : LokiQueryField.CascaderOption :=
  {| LokiQueryField.label := "level"; LokiQueryField.value := "level";
     LokiQueryField.children := None; LokiQueryField.disabled := None;
     LokiQueryField.loading := None |}.

Definition jobOption : LokiQueryField.CascaderOption :=
  {| LokiQueryField.label := "job"; LokiQueryField.value := "job";
     LokiQueryField.children := None; LokiQueryField.disabled := None;
     LokiQueryField.loading := None |}.

Definition sampleFieldState : LokiQueryField.LokiQueryFieldState :=
  {| LokiQueryField.logLabelOptions := [jobOption; levelOption];
     LokiQueryField.syntaxLoaded := true |}.

Definition sampleQueryProps : @LokiQueryField.QueryProps string :=
  {| LokiQueryField.initialQuery := Some {["refId" := "A"]};
     LokiQueryField.hasOnQueryChange := true |}.
End Samples.

(** * Properties *)

Section Properties.
Context {LogLevel : Type} {LogLevel_eq : EqDecision LogLevel}
  {LogLevel_countable : Countable LogLevel} {Series : Type}.
Variable placeholder : string.

Implicit Types (R rest : list (LogRow LogLevel)) (A B row : LogRow LogLevel).
Implicit Types (strategy : LogsDedupStrategy.t).
Implicit Types (M : LogsModel LogLevel Series) (hidden : gset LogLevel).

(** ** Deduplication *)

Lemma normalizedKey_withDuplicates strategy row n :
  normalizedKey placeholder strategy (withDuplicates row n)
  = normalizedKey placeholder strategy row.
Proof. by destruct strategy. Qed.

Lemma sameKey_withDuplicates strategy A B n :
  sameKey placeholder strategy A (withDuplicates B n) = sameKey placeholder strategy A B.
Proof. unfold sameKey. by rewrite normalizedKey_withDuplicates. Qed.

Lemma withDuplicates_twice row n m :
  withDuplicates (withDuplicates row n) m = withDuplicates row m.
Proof. done. Qed.

(** The pass, started on a candidate that has absorbed [absorbed], emits
    the survivors of the runs. *)
Lemma dedupWalk_runsWalk strategy rest : ∀ A (absorbed : list (LogRow LogLevel)),
  dedupWalk placeholder strategy (withDuplicates A (length absorbed)) rest
  = survivor <$> runsWalk placeholder strategy A absorbed rest.
Proof.
  induction rest as [|next rest IH]; intros A absorbed; simpl; [done|].
  rewrite sameKey_withDuplicates.
  destruct (sameKey placeholder strategy next A).
  - rewrite withDuplicates_twice.
    replace (S (length absorbed)) with (length (absorbed ++ [next]))
      by (rewrite length_app; simpl; lia).
    apply IH.
  - simpl. f_equal. apply (IH next []).
Qed.

Lemma runsWalk_concat strategy rest : ∀ A (absorbed : list (LogRow LogLevel)),
  concat (runRows <$> runsWalk placeholder strategy A absorbed rest)
  = A :: absorbed ++ rest.
Proof.
  induction rest as [|next rest IH]; intros A absorbed; simpl.
  - by rewrite !app_nil_r.
  - destruct (sameKey placeholder strategy next A); simpl.
    + rewrite IH. by rewrite <- app_assoc.
    + by rewrite IH.
Qed.

Lemma runsWalk_same_key strategy rest : ∀ A (absorbed : list (LogRow LogLevel)),
  Forall (λ row, normalizedKey placeholder strategy row
                 = normalizedKey placeholder strategy A) absorbed →
  Forall (λ run, Forall (λ row, normalizedKey placeholder strategy row
                                = normalizedKey placeholder strategy run.1) run.2)
    (runsWalk placeholder strategy A absorbed rest).
Proof.
  induction rest as [|next rest IH]; intros A absorbed Habs; simpl.
  - by constructor.
  - unfold sameKey. case_bool_decide as Hkey.
    + apply IH. apply Forall_app. split; [done|]. by constructor.
    + constructor; [done|]. apply IH. constructor.
Qed.

(** Two runs that follow each other start on rows with different keys. *)
Lemma runsWalk_adjacent_differ strategy rest : ∀ A (absorbed : list (LogRow LogLevel)) i run run',
  runsWalk placeholder strategy A absorbed rest !! i = Some run →
  runsWalk placeholder strategy A absorbed rest !! S i = Some run' →
  normalizedKey placeholder strategy run.1 ≠ normalizedKey placeholder strategy run'.1.
Proof.
  induction rest as [|next rest IH]; intros A absorbed i run run'; simpl.
  - by destruct i.
  - unfold sameKey. case_bool_decide as Hkey; [apply IH|].
    destruct i as [|i]; simpl.
    + intros [= <-]. destruct rest as [|next' rest]; simpl.
      * intros [= <-]. simpl. congruence.
      * unfold sameKey. case_bool_decide; intros Hrun'.
        -- assert (run'.1 = next) as ->; [|simpl; congruence].
           clear -Hrun'. revert Hrun'. generalize [next'].
           induction rest as [|x rest IH]; intros abs; simpl.
           ++ by intros [= <-].
           ++ unfold sameKey. case_bool_decide; [apply IH|]. by intros [= <-].
        -- injection Hrun' as <-. simpl. congruence.
    + apply IH.
Qed.

Lemma dedupCount_sum (rs : list (LogRow LogLevel)) :
  dedupCount rs = sum_list (duplicates <$> rs).
Proof.
  unfold dedupCount.
  assert (∀ acc, foldl (λ sum row, sum + duplicates row) acc rs
                 = acc + sum_list (duplicates <$> rs)) as Hgen.
  { induction rs as [|row rs IH]; intros acc; csimpl; [lia|]. rewrite IH. lia. }
  by rewrite Hgen.
Qed.

Lemma survivors_count (runs : list (LogRow LogLevel * list (LogRow LogLevel))) :
  sum_list (duplicates <$> (survivor <$> runs)) + length runs
  = length (concat (runRows <$> runs)).
Proof.
  induction runs as [|[A absorbed] runs IH]; csimpl; [done|].
  rewrite length_app. lia.
Qed.

Lemma dedupRows_runsOf R strategy :
  strategy ≠ LogsDedupStrategy.none →
  dedupRows placeholder R strategy = survivor <$> runsOf placeholder strategy R.
Proof.
  intros Hs. destruct R as [|first rest]; [by destruct strategy|].
  transitivity (dedupWalk placeholder strategy (withDuplicates first 0) rest);
    [by destruct strategy|].
  apply (dedupWalk_runsWalk strategy rest first []).
Qed.

Lemma runsOf_concat R strategy :
  concat (runRows <$> runsOf placeholder strategy R) = R.
Proof.
  destruct R as [|first rest]; [done|]. simpl. by rewrite runsWalk_concat.
Qed.

Lemma dedupRows_nil strategy :
  dedupRows placeholder ([] : list (LogRow LogLevel)) strategy = [].
Proof. by destruct strategy. Qed.

Lemma survivors_sublist (runs : list (LogRow LogLevel * list (LogRow LogLevel))) :
  (λ row, withDuplicates row 0) <$> (survivor <$> runs)
  `sublist_of` (λ row, withDuplicates row 0) <$> concat (runRows <$> runs).
Proof.
  induction runs as [|[A absorbed] runs IH]; simpl; [constructor|].
  apply sublist_skip. rewrite fmap_app. by apply sublist_inserts_l.
Qed.

(** ** The staged renderer *)

Implicit Types (p : LogsProps LogLevel Series) (st : LogsState LogLevel).
Implicit Types (w : Logs LogLevel Series) (e : Event LogLevel Series).

Lemma phase_mergeState st (u : StateUpdate LogLevel) :
  setDeferLogs u = None → setRenderAll u = None →
  phase (mergeState st u) = phase st.
Proof. unfold phase, mergeState. simpl. by intros -> ->. Qed.

Lemma componentDidUpdate_same_deferLogs st w :
  deferLogs st = deferLogs (state w) → componentDidUpdate st w = w.
Proof.
  unfold componentDidUpdate. intros ->. by destruct (deferLogs (state w)).
Qed.

(** A [setState] that names neither [deferLogs] nor [renderAll] merges
    the update and schedules nothing. *)
Lemma setState_mounted_plain (u : StateUpdate LogLevel) w :
  setDeferLogs u = None → setRenderAll u = None → lifecycle w = Mounted →
  setState u w
  = withState (mergeState (state w) u) (withSetStateCalls (u :: setStateCalls w) w).
Proof.
  intros Hd Hr Hl. unfold setState. rewrite Hl.
  apply componentDidUpdate_same_deferLogs. simpl. by rewrite Hd.
Qed.

Lemma deferLogsDone_mounted b w :
  lifecycle w = Mounted → deferLogs (state w) = true →
  runCallback (DeferLogsDone b) w
  = let w1 := withState (mergeState (state w) (deferLogsDoneUpdate b))
                (withSetStateCalls (deferLogsDoneUpdate b :: setStateCalls w) w) in
    if b then w1
    else withRenderAllTimer (Some (nextTimerId w))
           (withTimers (S (nextTimerId w))
              (pendingTimers w ++
                 [{| timerId := nextTimerId w; setAt := clock w; delay := 2000;
                     callback := RevealAll |}]) w1).
Proof.
  intros Hl Hd. unfold runCallback, setState, componentDidUpdate. rewrite Hl, Hd.
  by destruct b.
Qed.

Lemma revealAll_mounted w :
  lifecycle w = Mounted → deferLogs (state w) = false →
  runCallback RevealAll w
  = withState (mergeState (state w) revealAllUpdate)
      (withSetStateCalls (revealAllUpdate :: setStateCalls w) w).
Proof.
  intros Hl Hd. unfold runCallback, setState, componentDidUpdate. by rewrite Hl, Hd.
Qed.

(** *** Running a timer *)

Lemma fire_none id w : pendingTimers w = [] → fire id w = w.
Proof. unfold fire. by intros ->. Qed.

Lemma fire_other id t w : pendingTimers w = [t] → timerId t ≠ id → fire id w = w.
Proof. unfold fire. intros -> Hid. simpl. by case_decide. Qed.

Lemma fire_early t w : pendingTimers w = [t] → clock w < due t → fire (timerId t) w = w.
Proof.
  unfold fire. intros -> Hdue. simpl. case_decide; [|done].
  destruct (Nat.leb_spec (due t) (clock w)); [lia|done].
Qed.

Lemma fire_due t w :
  pendingTimers w = [t] → due t ≤ clock w →
  fire (timerId t) w = runCallback (callback t) (withTimers (nextTimerId w) [] w).
Proof.
  unfold fire. intros -> Hdue. simpl. case_decide; [|done].
  destruct (Nat.leb_spec (due t) (clock w)); [|lia].
  by rewrite filter_cons_False by (intros Hne; by apply Hne).
Qed.

(** *** Cancelling a timer *)

Lemma clearTimeout_nil id w :
  pendingTimers w = [] → pendingTimers (clearTimeout id w) = [].
Proof. destruct id; simpl; [|done]. by intros ->. Qed.

Lemma clearTimeout_same t w :
  pendingTimers w = [t] → pendingTimers (clearTimeout (Some (timerId t)) w) = [].
Proof.
  simpl. intros ->. by rewrite filter_cons_False by (intros Hne; by apply Hne).
Qed.

Lemma clearTimeout_single id t w :
  pendingTimers w = [t] →
  pendingTimers (clearTimeout id w) = [t] ∨ pendingTimers (clearTimeout id w) = [].
Proof.
  destruct id as [i|]; simpl; [|by left]. intros ->.
  destruct (decide (timerId t = i)) as [<-|Hne].
  - right. by rewrite filter_cons_False by (intros Hne; by apply Hne).
  - left. by rewrite filter_cons_True by done.
Qed.

Lemma clearTimeout_fields id w :
  state (clearTimeout id w) = state w ∧
  setStateCalls (clearTimeout id w) = setStateCalls w ∧
  props (clearTimeout id w) = props w ∧
  clock (clearTimeout id w) = clock w ∧
  lifecycle (clearTimeout id w) = lifecycle w.
Proof. by destruct id. Qed.

(** *** Preservation of the invariant *)

(** Once mounted, the invariant only looks at the lifecycle, the phase,
    the timers and the two timer fields, and lets time pass. *)
Lemma stagedInv_ext p0 w w' :
  lifecycle w ≠ Constructed → lifecycle w' = lifecycle w →
  phase (state w') = phase (state w) →
  pendingTimers w' = pendingTimers w → clock w ≤ clock w' →
  deferLogsTimer w' = deferLogsTimer w → renderAllTimer w' = renderAllTimer w →
  stagedInv p0 w → stagedInv p0 w'.
Proof.
  unfold stagedInv. intros Hnc -> -> -> Hclk -> -> (Hprev & Hts & Hshape).
  split; [done|]. split.
  - eapply Forall_impl; [done|]. simpl. intros. lia.
  - by destruct (lifecycle w).
Qed.

Lemma mount_constructed w :
  lifecycle w = Constructed → deferLogs (state w) = true →
  step Mount w
  = let rowCount := rowCount (props w) in
    withDeferLogsTimer (Some (nextTimerId w))
      (withTimers (S (nextTimerId w))
         (pendingTimers w ++
            [{| timerId := nextTimerId w; setAt := clock w; delay := rowCount;
                callback := DeferLogsDone (rowCount <=? PREVIEW_LIMIT * 2) |}])
         (withLifecycle Mounted w)).
Proof.
  intros Hl Hd. simpl. rewrite Hl. unfold componentDidMount. simpl. by rewrite Hd.
Qed.

Lemma stagedInv_plain_setState p0 (u : StateUpdate LogLevel) w :
  setDeferLogs u = None → setRenderAll u = None → lifecycle w = Mounted →
  stagedInv p0 w → stagedInv p0 (setState u w).
Proof.
  intros Hd Hr Hl. rewrite setState_mounted_plain by done.
  apply stagedInv_ext; simpl; try done; [congruence|].
  by apply phase_mergeState.
Qed.

Lemma step_stagedInv p0 e w : stagedInv p0 w → stagedInv p0 (step e w).
Proof.
  intros Hinv. destruct e; simpl; unfold whenMounted.
  - (* Mount *)
    destruct (lifecycle w) eqn:Hl; [|done..].
    pose proof Hinv as (Hprev & Hts & Hshape). rewrite Hl in Hshape.
    destruct Hshape as (Hp & Hst & Htimers & Hcalls).
    pose proof (mount_constructed w Hl) as Hmount. simpl in Hmount. rewrite Hl in Hmount.
    rewrite Hmount by (by rewrite Hst). clear Hmount.
    unfold stagedInv. simpl. rewrite Hst, Htimers, Hp. simpl.
    split; [done|]. split; [by repeat constructor|]. eauto.
  - (* Unmount *)
    destruct (lifecycle w) eqn:Hl; [done| |done].
    pose proof Hinv as (Hprev & Hts & Hshape). rewrite Hl in Hshape.
    unfold stagedInv, componentWillUnmount. simpl.
    assert (pendingTimers
              (clearTimeout (renderAllTimer w) (clearTimeout (deferLogsTimer w) w)) = [])
      as Hcleared.
    { destruct (phase (state w)).
      - destruct Hshape as (t & Htimers & Hid & _). rewrite Hid.
        by apply clearTimeout_nil, clearTimeout_same.
      - destruct Hshape as (t & Htimers & Hid & _). rewrite Hid.
        destruct (clearTimeout_single (deferLogsTimer w) t w Htimers) as [Hkept|Hgone].
        + by apply clearTimeout_same.
        + by apply clearTimeout_nil.
      - by do 2 apply clearTimeout_nil. }
    rewrite Hcleared. split; [|done].
    by destruct (renderAllTimer w), (deferLogsTimer w).
  - (* ReceiveProps *)
    destruct (lifecycle w) eqn:Hl; [done| |done].
    rewrite componentDidUpdate_same_deferLogs by done.
    apply (stagedInv_ext p0 w); simpl; try done. congruence.
  - (* Elapse *)
    destruct (lifecycle w) eqn:Hl.
    + destruct Hinv as (Hprev & Hts & Hshape). rewrite Hl in Hshape.
      unfold stagedInv. simpl. rewrite Hl.
      destruct Hshape as (? & ? & Htimers & ?). rewrite Htimers. by repeat split.
    + apply (stagedInv_ext p0 w); simpl; try done; [congruence|lia].
    + apply (stagedInv_ext p0 w); simpl; try done; [congruence|lia].
  - (* Fire *)
    pose proof Hinv as (Hprev & Hts & Hshape).
    destruct (lifecycle w) eqn:Hl.
    + destruct Hshape as (? & ? & Htimers & ?). by rewrite fire_none.
    + destruct (phase (state w)) eqn:Hphase.
      * destruct Hshape as (t & Htimers & Hid & Hdelay & Hcb).
        destruct (decide (timerId t = id)) as [<-|Hne]; [|by rewrite (fire_other id t)].
        destruct (Nat.lt_ge_cases (clock w) (due t)); [by rewrite fire_early|].
        rewrite fire_due, Hcb by done.
        assert (deferLogs (state w) = true) as Hd.
        { unfold phase in Hphase. by destruct (deferLogs (state w)), (renderAll (state w)). }
        rewrite deferLogsDone_mounted by done. simpl.
        unfold stagedInv, phase. change (PREVIEW_LIMIT * 2) with 200 in *.
        destruct (Nat.leb_spec (rowCount p0) 200).
        -- simpl. by rewrite Hl.
        -- simpl. rewrite Hl.
           split; [done|]. split; [by repeat constructor|]. eauto.
      * destruct Hshape as (t & Htimers & Hid & Hdelay & Hcb).
        destruct (decide (timerId t = id)) as [<-|Hne]; [|by rewrite (fire_other id t)].
        destruct (Nat.lt_ge_cases (clock w) (due t)); [by rewrite fire_early|].
        rewrite fire_due, Hcb by done.
        assert (deferLogs (state w) = false) as Hd.
        { unfold phase in Hphase. by destruct (deferLogs (state w)), (renderAll (state w)). }
        rewrite revealAll_mounted by done.
        unfold stagedInv, phase. simpl. rewrite Hl, Hd. by simpl.
      * by rewrite fire_none.
    + by rewrite fire_none.
  - destruct (lifecycle w) eqn:Hl; [done| |done].
    unfold onChangeDedup. cbv zeta.
    destruct (bool_decide (dedup (state w) = dedup')); by apply stagedInv_plain_setState.
  - destruct (lifecycle w) eqn:Hl; [done| |done]. by apply stagedInv_plain_setState.
  - destruct (lifecycle w) eqn:Hl; [done| |done]. by apply stagedInv_plain_setState.
  - destruct (lifecycle w) eqn:Hl; [done| |done]. by apply stagedInv_plain_setState.
  - destruct (lifecycle w) eqn:Hl; [done| |done]. by apply stagedInv_plain_setState.
Qed.

Lemma newLogs_stagedInv p0 : stagedInv p0 (newLogs p0).
Proof. unfold stagedInv. simpl. repeat split; [done|constructor]. Qed.

Lemma reachable_stagedInv p0 w : reachable p0 w → stagedInv p0 w.
Proof.
  induction 1 as [|e w _ IH]; [apply newLogs_stagedInv|by apply step_stagedInv].
Qed.

(** *** What an event does to the state *)

(** Only a timer that runs moves the scheduler from one phase to another. *)
Lemma step_phase e w :
  (∀ id, e ≠ Fire id) → phase (state (step e w)) = phase (state w).
Proof.
  intros Hfire. destruct e; simpl; unfold whenMounted;
    try (destruct (lifecycle w) eqn:Hl; [done| |done]).
  - destruct (lifecycle w); [|done..].
    unfold componentDidMount. simpl. by destruct (deferLogs (state w)).
  - simpl. unfold componentWillUnmount.
    by destruct (clearTimeout_fields (renderAllTimer w) (clearTimeout (deferLogsTimer w) w))
      as (-> & _), (clearTimeout_fields (deferLogsTimer w) w) as (-> & _).
  - by rewrite componentDidUpdate_same_deferLogs.
  - done.
  - by destruct (Hfire id).
  - unfold onChangeDedup. cbv zeta.
    destruct (bool_decide (dedup (state w) = dedup'));
      rewrite setState_mounted_plain by done; by apply phase_mergeState.
  - unfold onChangeLabels. rewrite setState_mounted_plain by done.
    by apply phase_mergeState.
  - unfold onChangeLocalTime. rewrite setState_mounted_plain by done.
    by apply phase_mergeState.
  - unfold onChangeUtc. rewrite setState_mounted_plain by done.
    by apply phase_mergeState.
  - unfold onToggleLogLevel. rewrite setState_mounted_plain by done.
    by apply phase_mergeState.
Qed.

Lemma phase_deferring st : phase st = deferring ↔ deferLogs st = true.
Proof. unfold phase. destruct (deferLogs st), (renderAll st); intuition congruence. Qed.

Lemma phase_previewOnly st :
  phase st = previewOnly ↔ deferLogs st = false ∧ renderAll st = false.
Proof. unfold phase. destruct (deferLogs st), (renderAll st); intuition congruence. Qed.

Lemma phase_full st : phase st = full ↔ deferLogs st = false ∧ renderAll st = true.
Proof. unfold phase. destruct (deferLogs st), (renderAll st); intuition congruence. Qed.

(** The one way out of the deferring phase: the defer timer runs, on a
    mounted component. *)
Lemma step_leaves_deferring p0 e w :
  stagedInv p0 w → phase (state w) = deferring →
  phase (state (step e w)) ≠ deferring →
  lifecycle w = Mounted ∧
  ∃ t, pendingTimers w = [t] ∧ e = Fire (timerId t) ∧ due t ≤ clock w ∧
       deferLogsTimer w = Some (timerId t) ∧ delay t = rowCount p0 ∧
       step e w = runCallback (DeferLogsDone (rowCount p0 <=? PREVIEW_LIMIT * 2))
                    (withTimers (nextTimerId w) [] w).
Proof.
  intros (_ & _ & Hshape) Hphase Hleft.
  assert ((∃ id, e = Fire id) ∨ ∀ id, e ≠ Fire id) as [[id ->]|Hother]
    by (destruct e; eauto).
  2: { destruct Hleft. by rewrite step_phase. }
  simpl in *. rewrite Hphase in Hshape.
  destruct (lifecycle w) eqn:Hl.
  - destruct Hshape as (_ & _ & Htimers & _). by rewrite fire_none in Hleft.
  - split; [done|]. destruct Hshape as (t & Htimers & Hid & Hdelay & Hcb).
    exists t. destruct (decide (timerId t = id)) as [<-|Hne];
      [|by rewrite (fire_other id t) in Hleft].
    destruct (Nat.lt_ge_cases (clock w) (due t)); [by rewrite fire_early in Hleft|].
    by rewrite fire_due, Hcb.
  - by rewrite fire_none in Hleft.
Qed.

(** Once the component is unmounted and no timer is pending, nothing
    happens to it any more. *)
Lemma step_unmounted e w :
  lifecycle w = Unmounted → pendingTimers w = [] →
  lifecycle (step e w) = Unmounted ∧ pendingTimers (step e w) = [] ∧
  state (step e w) = state w ∧ setStateCalls (step e w) = setStateCalls w.
Proof.
  intros Hl Htimers. destruct e; simpl; unfold whenMounted; rewrite ?Hl; try done.
  by rewrite fire_none.
Qed.

Lemma run_unmounted events : ∀ w,
  lifecycle w = Unmounted → pendingTimers w = [] →
  lifecycle (run events w) = Unmounted ∧ pendingTimers (run events w) = [] ∧
  state (run events w) = state w ∧ setStateCalls (run events w) = setStateCalls w.
Proof.
  induction events as [|e events IH]; intros w Hl Htimers; [done|].
  destruct (step_unmounted e w Hl Htimers) as (Hl' & Htimers' & Hst & Hcalls).
  destruct (IH (step e w) Hl' Htimers') as (? & ? & Hst' & Hcalls').
  unfold run in *. simpl. rewrite <- Hst, <- Hcalls. done.
Qed.

(** *** What [render] shows *)

Lemma processedRows_no_data p st : rows (data p) = [] → processedRows placeholder p st = [].
Proof.
  unfold processedRows, dedupLogRows, filterLogLevels. simpl. intros ->.
  apply dedupRows_nil.
Qed.

Lemma childRow_rowElements (mk : LogRow LogLevel → RowsChild LogLevel)
    (rs : list (LogRow LogLevel)) :
  (∀ r, childRow (mk r) = Some r) → omap childRow (mk <$> rs) = rs.
Proof.
  intros Hmk. induction rs as [|r rs IH]; [done|]. csimpl. by rewrite Hmk, IH.
Qed.

Lemma renderedRows_render p st :
  renderedRows (render placeholder p st)
  = match phase st with
    | deferring => []
    | previewOnly => take PREVIEW_LIMIT (processedRows placeholder p st)
    | full => processedRows placeholder p st
    end.
Proof.
  unfold renderedRows, render, phase. cbv zeta. simpl logsRows.
  destruct (rows (data p)) as [|r rs] eqn:Hrows.
  - simpl. rewrite processedRows_no_data by done.
    by destruct (deferLogs st), (renderAll st).
  - simpl length. change (0 <? S (length rs)) with true.
    destruct (deferLogs st), (renderAll st); cbn [andb negb].
    + done.
    + done.
    + rewrite app_nil_r, omap_app, !childRow_rowElements by done.
      apply take_drop.
    + rewrite !app_nil_r. by rewrite childRow_rowElements.
Qed.

Lemma logsRows_deferring p st :
  deferLogs st = true →
  logsRows (render placeholder p st)
  = if 0 <? rowCount p
    then [renderingSpan (length (processedRows placeholder p st))]
    else [].
Proof.
  intros Hd. unfold render, rowCount. cbv zeta. simpl logsRows. rewrite Hd.
  by destruct (0 <? length (rows (data p))).
Qed.

(** ** Main results: deduplication and filtering *)

(** C1. For every row sequence [R] and every strategy other than [none],
    the duplicate counts of the rows of [dedupRows R strategy], summed (also
    the way [render] sums them), plus the number of those rows give the
    length of [R]: the result lists, run by run, the first row of each run
    of [R], and the duplicate count of that row is the number of rows the
    run absorbed, the row itself excluded. *)
Theorem dedupRows_counts_absorbed R strategy :
  strategy ≠ LogsDedupStrategy.none →
  sum_list (duplicates <$> dedupRows placeholder R strategy)
    + length (dedupRows placeholder R strategy) = length R
  ∧ dedupCount (dedupRows placeholder R strategy)
    + length (dedupRows placeholder R strategy) = length R
  ∧ dedupRows placeholder R strategy = survivor <$> runsOf placeholder strategy R
  ∧ concat (runRows <$> runsOf placeholder strategy R) = R.
Proof.
  intros Hs.
  assert (sum_list (duplicates <$> dedupRows placeholder R strategy)
          + length (dedupRows placeholder R strategy) = length R) as Hsum.
  { rewrite dedupRows_runsOf by done. rewrite length_fmap, survivors_count.
    by rewrite runsOf_concat. }
  repeat split.
  - done.
  - by rewrite dedupCount_sum.
  - by apply dedupRows_runsOf.
  - apply runsOf_concat.
Qed.

(** C2. Under [none], [dedupRows] returns the row sequence it was given,
    the same rows in the same order with their duplicate counts untouched;
    so does [dedupLogRows] on the model. *)
Theorem dedupRows_none_identity R M :
  dedupRows placeholder R LogsDedupStrategy.none = R
  ∧ dedupLogRows placeholder M LogsDedupStrategy.none = M.
Proof. split; [done|]. by destruct M. Qed.

(** C3. Under a strategy other than [none] (so under [exact], whose key
    is the raw text), [A; B; A] with different keys for [A] and [B] gives
    three rows, and three rows of identical text give one row with duplicate
    count 2. In general the rows merged into one are adjacent in the input
    and have the key of the row that survives, two survivors that follow each
    other have different keys, and the survivors keep the order of the
    input. *)
Theorem dedupRows_merges_adjacent_only strategy A B A2 A3 :
  strategy ≠ LogsDedupStrategy.none →
  normalizedKey placeholder strategy A ≠ normalizedKey placeholder strategy B →
  entry A2 = entry A → entry A3 = entry A →
  dedupRows placeholder [A; B; A] strategy
    = [withDuplicates A 0; withDuplicates B 0; withDuplicates A 0]
  ∧ length (dedupRows placeholder [A; B; A] strategy) = 3
  ∧ dedupRows placeholder [A; A2; A3] strategy = [withDuplicates A 2]
  ∧ ∀ R,
      dedupRows placeholder R strategy = survivor <$> runsOf placeholder strategy R
      ∧ concat (runRows <$> runsOf placeholder strategy R) = R
      ∧ Forall (λ run, Forall (λ row, normalizedKey placeholder strategy row
                                      = normalizedKey placeholder strategy run.1) run.2)
          (runsOf placeholder strategy R)
      ∧ (∀ i a b, dedupRows placeholder R strategy !! i = Some a →
                  dedupRows placeholder R strategy !! S i = Some b →
                  normalizedKey placeholder strategy a ≠ normalizedKey placeholder strategy b)
      ∧ (λ row, withDuplicates row 0) <$> dedupRows placeholder R strategy
        `sublist_of` (λ row, withDuplicates row 0) <$> R.
Proof.
  intros Hs Hkey H2 H3.
  assert (∀ X Y : LogRow LogLevel, entry X = entry Y →
            normalizedKey placeholder strategy X = normalizedKey placeholder strategy Y)
    as Hentry by (intros X Y HXY; destruct strategy; simpl; by rewrite HXY).
  assert (dedupRows placeholder [A; B; A] strategy
          = [withDuplicates A 0; withDuplicates B 0; withDuplicates A 0]) as HABA.
  { rewrite dedupRows_runsOf by done. simpl. unfold sameKey.
    rewrite bool_decide_false by congruence. simpl. unfold sameKey.
    by rewrite (bool_decide_false _ Hkey). }
  split; [done|]. split; [by rewrite HABA|]. split.
  { rewrite dedupRows_runsOf by done. simpl. unfold sameKey.
    rewrite bool_decide_true by auto. simpl. unfold sameKey.
    by rewrite bool_decide_true by auto. }
  intros R. split; [by apply dedupRows_runsOf|]. split; [apply runsOf_concat|].
  split; [|split].
  - destruct R as [|first rest]; [constructor|]. apply runsWalk_same_key. constructor.
  - intros i a b. rewrite dedupRows_runsOf by done. rewrite !list_lookup_fmap.
    destruct (runsOf placeholder strategy R !! i) as [run|] eqn:Hi; [|done].
    destruct (runsOf placeholder strategy R !! S i) as [run'|] eqn:HSi; [|done].
    simpl. intros [= <-] [= <-]. unfold survivor.
    rewrite !normalizedKey_withDuplicates.
    destruct R as [|first rest]; [done|].
    by eapply runsWalk_adjacent_differ.
  - rewrite dedupRows_runsOf by done.
    rewrite <- (runsOf_concat R strategy) at 2. apply survivors_sublist.
Qed.

(** C4. [filterLogLevels M hidden] keeps no row whose level is in
    [hidden], keeps every row with no level (and every row whose level is not
    hidden), returns the kept rows as they are and in their order, passes
    [meta] and [series] through, and with nothing hidden returns [M]. *)
Theorem filterLogLevels_hides_levels M hidden :
  (∀ row level, row ∈ rows (filterLogLevels M hidden) →
                logLevel row = Some level → level ∉ hidden)
  ∧ (∀ row, row ∈ rows M → logLevel row = None →
            row ∈ rows (filterLogLevels M hidden))
  ∧ (∀ row, row ∈ rows (filterLogLevels M hidden)
            ↔ row ∈ rows M ∧ ∀ level, logLevel row = Some level → level ∉ hidden)
  ∧ rows (filterLogLevels M hidden) `sublist_of` rows M
  ∧ meta (filterLogLevels M hidden) = meta M
  ∧ series (filterLogLevels M hidden) = series M
  ∧ filterLogLevels M ∅ = M.
Proof.
  assert (∀ row, row ∈ rows (filterLogLevels M hidden)
            ↔ row ∈ rows M ∧ ∀ level, logLevel row = Some level → level ∉ hidden)
    as Hkept.
  { intros row. unfold filterLogLevels. simpl. rewrite list_elem_of_filter.
    unfold isHidden. destruct (logLevel row) as [level|]; simpl.
    - case_bool_decide; simpl; split.
      + by intros [[] _].
      + intros [_ Hnot]. by destruct (Hnot level).
      + intros [_ Hin]. split; [done|]. by intros ? [= <-].
      + by intros [Hin _].
    - split; [intros [_ Hin]|intros [Hin _]]; by split. }
  split; [|split; [|split; [done|]]].
  - intros row level Hin. apply Hkept in Hin as [_ Hin]. apply Hin.
  - intros row Hin Hnone. apply Hkept. split; [done|]. by rewrite Hnone.
  - split; [apply sublist_filter|]. split; [done|]. split; [done|].
    clear Hkept. destruct M as [rs m s]. unfold filterLogLevels, withRows. simpl. f_equal.
    induction rs as [|row rs IH]; [done|].
    rewrite filter_cons_True; [by rewrite IH|].
    unfold isHidden. destruct (logLevel row); [|done].
    rewrite bool_decide_false; [done|]. apply not_elem_of_empty.
Qed.

(** ** Main results: the staged renderer *)

(** What the defer callback leaves behind on a mounted, deferring
    component. *)
Lemma deferLogsDone_result b w :
  lifecycle w = Mounted → deferLogs (state w) = true →
  phase (state (runCallback (DeferLogsDone b) w)) = (if b then full else previewOnly)
  ∧ props (runCallback (DeferLogsDone b) w) = props w
  ∧ clock (runCallback (DeferLogsDone b) w) = clock w
  ∧ lifecycle (runCallback (DeferLogsDone b) w) = Mounted
  ∧ pendingTimers (runCallback (DeferLogsDone b) w)
    = pendingTimers w ++
      (if b then []
       else [{| timerId := nextTimerId w; setAt := clock w; delay := 2000;
                callback := RevealAll |}])
  ∧ (b = false → renderAllTimer (runCallback (DeferLogsDone b) w) = Some (nextTimerId w)).
Proof.
  intros Hl Hd. rewrite deferLogsDone_mounted by done.
  destruct b; simpl; unfold phase; simpl; by rewrite ?app_nil_r.
Qed.

(** On a mounted, deferring component exactly the defer timer is
    pending; it does not run before its delay, the row count, has elapsed,
    and runs the defer callback afterwards. *)
Lemma defer_timer p0 w :
  stagedInv p0 w → lifecycle w = Mounted → phase (state w) = deferring →
  ∃ t, pendingTimers w = [t] ∧ deferLogsTimer w = Some (timerId t)
       ∧ delay t = rowCount p0 ∧ setAt t ≤ clock w
       ∧ callback t = DeferLogsDone (rowCount p0 <=? PREVIEW_LIMIT * 2)
       ∧ ∀ ms,
           (clock w + ms < due t →
              step (Fire (timerId t)) (step (Elapse ms) w) = step (Elapse ms) w)
           ∧ (due t ≤ clock w + ms →
              step (Fire (timerId t)) (step (Elapse ms) w)
              = runCallback (DeferLogsDone (rowCount p0 <=? PREVIEW_LIMIT * 2))
                  (withTimers (nextTimerId w) [] (step (Elapse ms) w))).
Proof.
  intros (_ & Hts & Hshape) Hl Hphase. rewrite Hl, Hphase in Hshape.
  destruct Hshape as (t & Htimers & Hid & Hdelay & Hcb). exists t.
  rewrite Htimers, Forall_singleton in Hts.
  repeat split; try done.
  - intros Hearly. simpl. by apply fire_early.
  - intros Hdue. simpl step. by rewrite fire_due, Hcb.
Qed.

(** C5. On activation with [rowCount p0] rows the defer callback captures
    [renderAll := rowCount <= PREVIEW_LIMIT * 2], and the component is
    deferring. When that is true (at most 200 rows) no instance is ever in
    the preview phase: whatever event ends the deferring phase leads to
    [full], and the defer timer does end it once the delay has elapsed. *)
Theorem renderAll_skips_preview p0 w :
  reachable p0 w →
  (lifecycle w = Constructed →
     ∃ t, pendingTimers (step Mount w) = [t]
          ∧ callback t = DeferLogsDone (rowCount p0 <=? PREVIEW_LIMIT * 2)
          ∧ phase (state (step Mount w)) = deferring)
  ∧ (rowCount p0 ≤ PREVIEW_LIMIT * 2 →
       phase (state w) ≠ previewOnly
       ∧ (∀ e, phase (state w) = deferring →
               phase (state (step e w)) ≠ deferring →
               phase (state (step e w)) = full)
       ∧ (lifecycle w = Mounted → phase (state w) = deferring →
            ∃ id, deferLogsTimer w = Some id ∧
                  ∀ ms, rowCount p0 ≤ ms →
                        phase (state (step (Fire id) (step (Elapse ms) w))) = full)).
Proof.
  intros Hreach. pose proof (reachable_stagedInv p0 w Hreach) as Hinv. split.
  - intros Hl. destruct Hinv as (_ & _ & Hshape). rewrite Hl in Hshape.
    destruct Hshape as (Hp & Hst & Htimers & _).
    rewrite mount_constructed by (by rewrite ?Hst). simpl.
    rewrite Htimers, Hp, Hst. eauto.
  - intros Hfew.
    assert (∀ w', reachable p0 w' → phase (state w') ≠ previewOnly) as Hnever.
    { intros w' Hreach' Hpreview.
      destruct (reachable_stagedInv p0 w' Hreach') as (Hprev & _).
      specialize (Hprev Hpreview). lia. }
    split; [by apply Hnever|]. split.
    + intros e _ Hleft.
      pose proof (Hnever (step e w) (reachable_step p0 e w Hreach)).
      by destruct (phase (state (step e w))).
    + intros Hl Hphase.
      destruct (defer_timer p0 w Hinv Hl Hphase)
        as (t & Htimers & Hid & Hdelay & Hset & Hcb & Hruns).
      exists (timerId t). split; [done|]. intros ms Hms.
      destruct (Hruns ms) as [_ Hrun]. rewrite Hrun by (unfold due; lia).
      rewrite (proj2 (Nat.leb_le _ _) Hfew).
      apply deferLogsDone_result; [done|]. by apply phase_deferring.
Qed.

(** C6. Mounted on more than [PREVIEW_LIMIT * 2] rows, the component
    leaves the deferring phase for the preview phase, whatever event makes it
    leave: it then shows the first [PREVIEW_LIMIT] processed rows and one
    timer is pending, set at that moment with a delay of 2000 ms, to reveal
    the rest. The defer timer does make it leave. The reveal timer does not
    run before its 2000 ms have elapsed; when it runs the component is in the
    full phase and shows every processed row. *)
Theorem preview_then_full_after_2000 p0 w :
  reachable p0 w → PREVIEW_LIMIT * 2 < rowCount p0 →
  (∀ e, phase (state w) = deferring → phase (state (step e w)) ≠ deferring →
     phase (state (step e w)) = previewOnly
     ∧ renderedRows (view placeholder (step e w))
       = take PREVIEW_LIMIT
           (processedRows placeholder (props (step e w)) (state (step e w)))
     ∧ (PREVIEW_LIMIT
        ≤ length (processedRows placeholder (props (step e w)) (state (step e w))) →
        length (renderedRows (view placeholder (step e w))) = PREVIEW_LIMIT)
     ∧ ∃ t, pendingTimers (step e w) = [t]
            ∧ renderAllTimer (step e w) = Some (timerId t)
            ∧ setAt t = clock (step e w) ∧ delay t = 2000 ∧ callback t = RevealAll)
  ∧ (lifecycle w = Mounted → phase (state w) = deferring →
       ∃ id, deferLogsTimer w = Some id ∧
             ∀ ms, rowCount p0 ≤ ms →
                   phase (state (step (Fire id) (step (Elapse ms) w))) = previewOnly)
  ∧ (lifecycle w = Mounted → phase (state w) = previewOnly →
       ∃ t, pendingTimers w = [t] ∧ renderAllTimer w = Some (timerId t)
            ∧ delay t = 2000 ∧ callback t = RevealAll
            ∧ (clock w < setAt t + 2000 → step (Fire (timerId t)) w = w)
            ∧ (setAt t + 2000 ≤ clock w →
                 phase (state (step (Fire (timerId t)) w)) = full
                 ∧ renderedRows (view placeholder (step (Fire (timerId t)) w))
                   = processedRows placeholder (props (step (Fire (timerId t)) w))
                       (state (step (Fire (timerId t)) w))
                 ∧ pendingTimers (step (Fire (timerId t)) w) = [])).
Proof.
  intros Hreach Hmany. pose proof (reachable_stagedInv p0 w Hreach) as Hinv.
  assert ((rowCount p0 <=? PREVIEW_LIMIT * 2) = false) as Hno
    by (apply Nat.leb_gt; lia).
  split; [|split].
  - intros e Hphase Hleft.
    destruct (step_leaves_deferring p0 e w Hinv Hphase Hleft)
      as (Hl & t & Htimers & -> & Hdue & Hid & Hdelay & Hstep).
    rewrite Hstep, Hno.
    destruct (deferLogsDone_result false (withTimers (nextTimerId w) [] w))
      as (Hphase' & Hprops & Hclock & Hl' & Htimers' & Hrt);
      [done|by apply phase_deferring|].
    assert (renderedRows (view placeholder (runCallback (DeferLogsDone false)
              (withTimers (nextTimerId w) [] w)))
            = take PREVIEW_LIMIT
                (processedRows placeholder
                   (props (runCallback (DeferLogsDone false)
                             (withTimers (nextTimerId w) [] w)))
                   (state (runCallback (DeferLogsDone false)
                             (withTimers (nextTimerId w) [] w))))) as Hshown.
    { unfold view. by rewrite renderedRows_render, Hphase'. }
    split; [done|]. split; [done|]. split.
    + intros Hlong. rewrite Hshown, length_take. lia.
    + eexists. split; [by rewrite Htimers'|]. split; [by apply Hrt|].
      by rewrite Hclock.
  - intros Hl Hphase.
    destruct (defer_timer p0 w Hinv Hl Hphase)
      as (t & Htimers & Hid & Hdelay & Hset & Hcb & Hruns).
    exists (timerId t). split; [done|]. intros ms Hms.
    destruct (Hruns ms) as [_ Hrun]. rewrite Hrun by (unfold due; lia). rewrite Hno.
    apply deferLogsDone_result; [done|]. by apply phase_deferring.
  - intros Hl Hphase. destruct Hinv as (_ & _ & Hshape).
    rewrite Hl, Hphase in Hshape. destruct Hshape as (t & Htimers & Hid & Hdelay & Hcb).
    exists t. do 4 (split; [done|]). split.
    + intros Hearly. simpl. apply fire_early; [done|]. unfold due. lia.
    + intros Hdue. apply phase_previewOnly in Hphase as [Hd _].
      assert (step (Fire (timerId t)) w
              = withState (mergeState (state w) revealAllUpdate)
                  (withSetStateCalls (revealAllUpdate :: setStateCalls w)
                     (withTimers (nextTimerId w) [] w))) as ->.
      { simpl. rewrite fire_due, Hcb by (done || unfold due; lia).
        by rewrite revealAll_mounted. }
      assert (phase (mergeState (state w) revealAllUpdate) = full) as Hfull
        by (unfold phase; simpl; by rewrite Hd).
      split; [done|]. split; [|done].
      unfold view. rewrite renderedRows_render. simpl state. by rewrite Hfull.
Qed.

(** C7. The timer that ends the deferring phase is set, on mount, with a
    delay of [rowCount p0] milliseconds, the number of rows of the model the
    component was given: it is the only pending timer while the component
    defers, it does not run before that many milliseconds have elapsed, and
    it ends the deferring phase once they have. *)
Theorem defer_delay_is_row_count p0 w :
  reachable p0 w →
  (lifecycle w = Constructed →
     pendingTimers (step Mount w)
     = [{| timerId := nextTimerId w; setAt := clock w; delay := rowCount p0;
           callback := DeferLogsDone (rowCount p0 <=? PREVIEW_LIMIT * 2) |}]
     ∧ deferLogsTimer (step Mount w) = Some (nextTimerId w))
  ∧ (lifecycle w = Mounted → phase (state w) = deferring →
       ∃ t, pendingTimers w = [t] ∧ deferLogsTimer w = Some (timerId t)
            ∧ delay t = rowCount p0
            ∧ ∀ ms,
                (clock w + ms < setAt t + rowCount p0 →
                   step (Fire (timerId t)) (step (Elapse ms) w) = step (Elapse ms) w)
                ∧ (setAt t + rowCount p0 ≤ clock w + ms →
                   phase (state (step (Fire (timerId t)) (step (Elapse ms) w)))
                   ≠ deferring)).
Proof.
  intros Hreach. pose proof (reachable_stagedInv p0 w Hreach) as Hinv. split.
  - intros Hl. destruct Hinv as (_ & _ & Hshape). rewrite Hl in Hshape.
    destruct Hshape as (Hp & Hst & Htimers & _).
    rewrite mount_constructed by (by rewrite ?Hst). simpl.
    by rewrite Htimers, Hp.
  - intros Hl Hphase.
    destruct (defer_timer p0 w Hinv Hl Hphase)
      as (t & Htimers & Hid & Hdelay & Hset & Hcb & Hruns).
    exists t. repeat split; try done.
    + intros Hearly. apply Hruns. unfold due. lia.
    + intros Hdue. destruct (Hruns ms) as [_ Hrun]. rewrite Hrun by (unfold due; lia).
      destruct (deferLogsDone_result (rowCount p0 <=? PREVIEW_LIMIT * 2)
                  (withTimers (nextTimerId w) [] (step (Elapse ms) w)))
        as (-> & _); [done|by apply phase_deferring|].
      by destruct (rowCount p0 <=? PREVIEW_LIMIT * 2).
Qed.

(** C8. Unmounting a mounted component cancels its timers: each pending
    timer is the defer timer or the reveal timer, none is pending afterwards,
    and whatever happens next (time passing, the event loop trying to run a
    timer) no [setState] is called and the state stays as it was. *)
Theorem unmount_cancels_timers p0 w events :
  reachable p0 w → lifecycle w = Mounted →
  (∀ t, t ∈ pendingTimers w →
        deferLogsTimer w = Some (timerId t) ∨ renderAllTimer w = Some (timerId t))
  ∧ pendingTimers (step Unmount w) = []
  ∧ lifecycle (step Unmount w) = Unmounted
  ∧ pendingTimers (run events (step Unmount w)) = []
  ∧ setStateCalls (run events (step Unmount w)) = setStateCalls w
  ∧ state (run events (step Unmount w)) = state w.
Proof.
  intros Hreach Hl. pose proof (reachable_stagedInv p0 w Hreach) as Hinv.
  pose proof (step_stagedInv p0 Unmount w Hinv) as (_ & _ & Hafter).
  assert (lifecycle (step Unmount w) = Unmounted) as Hl'.
  { simpl. unfold whenMounted. by rewrite Hl. }
  rewrite Hl' in Hafter.
  destruct (run_unmounted events (step Unmount w) Hl' Hafter) as (_ & -> & -> & ->).
  assert (state (step Unmount w) = state w ∧ setStateCalls (step Unmount w) = setStateCalls w)
    as [-> ->].
  { simpl. unfold whenMounted, componentWillUnmount. rewrite Hl. simpl.
    by destruct (clearTimeout_fields (renderAllTimer w) (clearTimeout (deferLogsTimer w) w))
      as (-> & -> & _), (clearTimeout_fields (deferLogsTimer w) w) as (-> & -> & _). }
  repeat split; try done.
  intros t Hin. destruct Hinv as (_ & _ & Hshape). rewrite Hl in Hshape.
  destruct (phase (state w)).
  - destruct Hshape as (t' & Htimers & Hid & _). rewrite Htimers in Hin.
    apply list_elem_of_singleton in Hin as ->. by left.
  - destruct Hshape as (t' & Htimers & Hid & _). rewrite Htimers in Hin.
    apply list_elem_of_singleton in Hin as ->. by right.
  - rewrite Hshape in Hin. by apply not_elem_of_nil in Hin.
Qed.

(** C9, as amended. While the component defers no [Row] is rendered;
    the rows area holds the placeholder "Rendering n rows...", with [n] the
    number of processed (filtered and deduplicated) rows, when the model has
    at least one row, and is empty when the model has none. *)
Theorem deferring_placeholder_when_data p st :
  phase st = deferring →
  renderedRows (render placeholder p st) = []
  ∧ (∀ reactKey rowProps, RowElement reactKey rowProps ∉ logsRows (render placeholder p st))
  ∧ (0 < rowCount p →
       logsRows (render placeholder p st)
       = [renderingSpan (length (processedRows placeholder p st))])
  ∧ (rowCount p = 0 → logsRows (render placeholder p st) = []).
Proof.
  intros Hphase. pose proof (proj1 (phase_deferring st) Hphase) as Hd.
  pose proof (logsRows_deferring p st Hd) as Hrows.
  split; [by rewrite renderedRows_render, Hphase|]. split; [|split].
  - intros reactKey rowProps. rewrite Hrows.
    destruct (0 <? rowCount p); [|apply not_elem_of_nil].
    intros Hin. by apply list_elem_of_singleton in Hin.
  - intros Hdata. by rewrite Hrows, (proj2 (Nat.ltb_lt _ _) Hdata).
  - intros Hnone. by rewrite Hrows, Hnone.
Qed.

(** C10. On a mounted component [onChangeDedup s] sets the strategy to
    [none] when [s] is the current strategy and to [s] otherwise; it names no
    other field of the state. *)
Theorem onChangeDedup_toggles w s :
  lifecycle w = Mounted →
  (dedup (state w) = s →
     dedup (state (onChangeDedup s w)) = LogsDedupStrategy.none)
  ∧ (dedup (state w) ≠ s → dedup (state (onChangeDedup s w)) = s)
  ∧ onChangeDedup s w = step (ChangeDedup s) w
  ∧ deferLogs (state (onChangeDedup s w)) = deferLogs (state w)
  ∧ renderAll (state (onChangeDedup s w)) = renderAll (state w)
  ∧ hiddenLogLevels (state (onChangeDedup s w)) = hiddenLogLevels (state w)
  ∧ showLabels (state (onChangeDedup s w)) = showLabels (state w)
  ∧ showLocalTime (state (onChangeDedup s w)) = showLocalTime (state w)
  ∧ showUtc (state (onChangeDedup s w)) = showUtc (state w).
Proof.
  intros Hl. simpl step. unfold whenMounted, onChangeDedup. rewrite Hl. cbv zeta.
  case_bool_decide as Hs; rewrite setState_mounted_plain by done; simpl;
    repeat split; try done; by intros [].
Qed.

End Properties.

(** * Further properties of the panel *)

Section PanelProperties.
Context {LogLevel : Type} {LogLevel_eq : EqDecision LogLevel}
  {LogLevel_countable : Countable LogLevel} {Series : Type}.
Variable placeholder : string.

Implicit Types (p : LogsProps LogLevel Series) (st : LogsState LogLevel).
Implicit Types (w : Logs LogLevel Series) (e : Event LogLevel Series).

(** ** The schedule *)

Lemma fire_phase_rank p0 id w :
  stagedInv p0 w →
  phaseRank (phase (state w)) ≤ phaseRank (phase (state (fire id w))).
Proof.
  intros (_ & _ & Hshape).
  destruct (lifecycle w) eqn:Hl.
  - destruct Hshape as (_ & _ & Htimers & _). by rewrite fire_none.
  - destruct (phase (state w)) eqn:Hphase; [simpl; lia| |by rewrite fire_none, Hphase].
    destruct Hshape as (t & Htimers & _ & _ & Hcb).
    destruct (decide (timerId t = id)) as [<-|Hne];
      [|by rewrite (fire_other id t), Hphase].
    destruct (Nat.lt_ge_cases (clock w) (due t)); [by rewrite fire_early, Hphase|].
    rewrite fire_due, Hcb by done. apply phase_previewOnly in Hphase as [Hd _].
    rewrite revealAll_mounted by done. unfold phase. simpl. rewrite Hd. simpl. lia.
  - by rewrite fire_none.
Qed.

Lemma step_phase_rank p0 e w :
  stagedInv p0 w →
  phaseRank (phase (state w)) ≤ phaseRank (phase (state (step e w))).
Proof.
  intros Hinv.
  assert ((∃ id, e = Fire id) ∨ ∀ id, e ≠ Fire id) as [[id ->]|Hother]
    by (destruct e; eauto).
  - by apply (fire_phase_rank p0).
  - by rewrite step_phase.
Qed.

Lemma run_stagedInv p0 events : ∀ w, stagedInv p0 w → stagedInv p0 (run events w).
Proof.
  induction events as [|e events IH]; intros w Hinv; [done|].
  apply (IH (step e w)). by apply step_stagedInv.
Qed.

(** X1. The staged renderer never goes back: along any sequence of
    events (timers, controls, new props, unmounting) the phase of an instance
    only moves in the order deferring, preview, full. *)
Theorem phase_never_goes_back p0 w events :
  reachable p0 w →
  phaseRank (phase (state w)) ≤ phaseRank (phase (state (run events w))).
Proof.
  intros Hreach. pose proof (reachable_stagedInv p0 w Hreach) as Hinv. clear Hreach.
  revert w Hinv. induction events as [|e events IH]; intros w Hinv; [done|].
  etrans; [by apply (step_phase_rank p0 e)|]. apply (IH (step e w)).
  by apply step_stagedInv.
Qed.

(** X2. The controls of the panel and new props leave the schedule alone:
    they change neither [deferLogs] nor [renderAll], set and cancel no timer,
    and leave the two timer fields and the lifecycle as they were. *)
Theorem controls_leave_schedule e w :
  isControl e = true →
  deferLogs (state (step e w)) = deferLogs (state w)
  ∧ renderAll (state (step e w)) = renderAll (state w)
  ∧ pendingTimers (step e w) = pendingTimers w
  ∧ nextTimerId (step e w) = nextTimerId w
  ∧ deferLogsTimer (step e w) = deferLogsTimer w
  ∧ renderAllTimer (step e w) = renderAllTimer w
  ∧ lifecycle (step e w) = lifecycle w
  ∧ clock (step e w) = clock w.
Proof.
  intros He. destruct e; try discriminate He; simpl; unfold whenMounted;
    (destruct (lifecycle w) eqn:Hl; [done| |done]).
  - rewrite componentDidUpdate_same_deferLogs by done. by simpl.
  - unfold onChangeDedup. cbv zeta.
    destruct (bool_decide (dedup (state w) = dedup'));
      by rewrite setState_mounted_plain by done.
  - unfold onChangeLabels. by rewrite setState_mounted_plain by done.
  - unfold onChangeLocalTime. by rewrite setState_mounted_plain by done.
  - unfold onChangeUtc. by rewrite setState_mounted_plain by done.
  - unfold onToggleLogLevel. by rewrite setState_mounted_plain by done.
Qed.

(** X3. At most one timer is pending at any time, and one is pending
    exactly while the component is mounted and has not reached the full
    phase. *)
Theorem one_timer_until_full p0 w :
  reachable p0 w →
  length (pendingTimers w) ≤ 1
  ∧ (length (pendingTimers w) = 1
     ↔ lifecycle w = Mounted ∧ phase (state w) ≠ full).
Proof.
  intros Hreach. destruct (reachable_stagedInv p0 w Hreach) as (_ & _ & Hshape).
  destruct (lifecycle w) eqn:Hl.
  - destruct Hshape as (_ & _ & -> & _). simpl. split; [lia|]. split; [lia|by intros []].
  - destruct (phase (state w)) eqn:Hphase.
    + destruct Hshape as (t & -> & _). simpl. split; [lia|]. by split.
    + destruct Hshape as (t & -> & _). simpl. split; [lia|]. by split.
    + rewrite Hshape. simpl. split; [lia|]. split; [lia|]. by intros [_ []].
  - rewrite Hshape. simpl. split; [lia|]. split; [lia|by intros []].
Qed.

(** X4. Staging is decided once, on mount. New props change neither the
    state nor the pending timer, whatever the size of the new model; a
    component that has reached the full phase shows every processed row of a
    model it is handed later, at once, with no timer set. *)
Theorem new_props_are_not_staged p0 w p :
  reachable p0 w → lifecycle w = Mounted →
  props (step (ReceiveProps p) w) = p
  ∧ state (step (ReceiveProps p) w) = state w
  ∧ pendingTimers (step (ReceiveProps p) w) = pendingTimers w
  ∧ (phase (state w) = full →
       pendingTimers (step (ReceiveProps p) w) = []
       ∧ renderedRows (view placeholder (step (ReceiveProps p) w))
         = processedRows placeholder p (state w)).
Proof.
  intros Hreach Hl. destruct (reachable_stagedInv p0 w Hreach) as (_ & _ & Hshape).
  assert (step (ReceiveProps p) w = withProps p w) as ->.
  { simpl. unfold whenMounted. rewrite Hl. by apply componentDidUpdate_same_deferLogs. }
  simpl. do 3 (split; [done|]). intros Hfull. rewrite Hl, Hfull in Hshape.
  split; [done|]. unfold view. simpl. by rewrite renderedRows_render, Hfull.
Qed.

(** ** What [render] shows *)

Lemma lookup_take_drop_fmap {A B} (f g : A → B) (l : list A) n i :
  ((f <$> take n l) ++ (g <$> drop n l)) !! i
  = (λ x, if i <? n then f x else g x) <$> l !! i.
Proof.
  revert n i. induction l as [|x l IH]; intros n i.
  - by rewrite take_nil, drop_nil.
  - destruct n as [|n].
    + rewrite take_0, drop_0, fmap_nil, app_nil_l, list_lookup_fmap.
      by destruct ((x :: l) !! i).
    + destruct i as [|i]; [done|]. simpl. by rewrite IH.
Qed.

(** X5. The [i]-th [Row] of the rows area shows the [i]-th processed row.
    It is keyed by that row's key and duplicate count, is handed the whole
    list of processed rows as [allRows] (also in the preview phase, where only
    the first [PREVIEW_LIMIT] are shown), and is handed the highlighter
    expressions exactly when [i] is below [PREVIEW_LIMIT]. *)
Theorem row_elements_follow_processed_rows p st i child :
  logsRows (render placeholder p st) !! i = Some child →
  child = renderingSpan (length (processedRows placeholder p st))
  ∨ ∃ rowProps,
      child = RowElement (key (row rowProps), duplicates (row rowProps)) rowProps
      ∧ processedRows placeholder p st !! i = Some (row rowProps)
      ∧ allRows rowProps = processedRows placeholder p st
      ∧ rowHighlighterExpressions rowProps
        = (if i <? PREVIEW_LIMIT then Some (highlighterExpressions p) else None)
      ∧ showDuplicates rowProps = bool_decide (dedup st ≠ LogsDedupStrategy.none)
      ∧ rowShowLocalTime rowProps = showLocalTime st
      ∧ rowShowUtc rowProps = showUtc st.
Proof.
  unfold render. cbv zeta. simpl logsRows.
  destruct (0 <? length (rows (data p))) eqn:HhasData; cycle 1.
  { simpl. by destruct i. }
  destruct (deferLogs st), (renderAll st); cbn [andb negb].
  - intros Hi. left. destruct i; [by injection Hi as <-|done].
  - intros Hi. left. destruct i; [by injection Hi as <-|done].
  - rewrite app_nil_r, lookup_take_drop_fmap.
    destruct (processedRows placeholder p st !! i) as [r|] eqn:Hr; [|done].
    simpl. intros [= <-]. right.
    destruct (i <? PREVIEW_LIMIT);
      match goal with |- ∃ _, RowElement _ ?rp = _ ∧ _ => by exists rp end.
  - rewrite !app_nil_r, list_lookup_fmap.
    destruct (take PREVIEW_LIMIT (processedRows placeholder p st) !! i) as [r|] eqn:Hr;
      [|done].
    simpl. intros [= <-]. right.
    apply lookup_take_Some in Hr as [Hr Hi].
    rewrite (proj2 (Nat.ltb_lt _ _) Hi).
    match goal with |- ∃ _, RowElement _ ?rp = _ ∧ _ => by exists rp end.
Qed.

(** X6. "No logs found" never shows together with rows: when that panel
    is shown the rows area and the meta line are empty, and it is not shown
    when the model has rows, nor while loading or scanning. *)
Theorem no_data_panel_excludes_rows p st :
  (noDataPanel (render placeholder p st) = true →
     logsRows (render placeholder p st) = []
     ∧ metaPanel (render placeholder p st) = None
     ∧ rowCount p = 0 ∧ loading p = false ∧ scanning p = false)
  ∧ (rowCount p = 0 → loading p = false → scanning p = false →
       noDataPanel (render placeholder p st) = true).
Proof.
  unfold render, rowCount. cbv zeta. simpl.
  destruct (rows (data p)) as [|r rs]; simpl.
  - by destruct (loading p), (scanning p).
  - rewrite !andb_false_r. simpl. split; [done|]. intros [=].
Qed.

(** X7. The labels column. Until the user operates the "Labels" switch
    the column is shown exactly when some row of the model as given (before
    filtering) carries a label; once the switch was operated the column
    follows the switch, and no event brings the automatic mode back. *)
Theorem labels_column_auto_until_switched p st i reactKey rowProps :
  logsRows (render placeholder p st) !! i = Some (RowElement reactKey rowProps) →
  (showLabels st = None →
     rowShowLabels rowProps = true ↔ someRowHasLabels (rows (data p)))
  ∧ (∀ shown, showLabels st = Some shown → rowShowLabels rowProps = shown)
  ∧ (∀ w checked, lifecycle w = Mounted →
       showLabels (state (step (ChangeLabels checked) w)) = Some checked)
  ∧ (∀ w e, showLabels (state w) ≠ None → showLabels (state (step e w)) ≠ None).
Proof.
  intros Hi. split; [|split; [|split]].
  - intros Hauto.
    assert (rowShowLabels rowProps
            = existsb (λ r, 0 <? size (uniqueLabels r)) (rows (data p))) as ->.
    { revert Hi. unfold render. cbv zeta. simpl logsRows. rewrite Hauto.
      destruct (0 <? length (rows (data p))) eqn:HhasData; [|by destruct i].
      destruct (deferLogs st), (renderAll st); cbn [andb negb].
      - by destruct i as [|[|i]].
      - by destruct i as [|[|i]].
      - rewrite app_nil_r, lookup_take_drop_fmap.
        destruct (processedRows placeholder p st !! i); [|done].
        simpl. destruct (i <? PREVIEW_LIMIT); by intros [= _ <-].
      - rewrite !app_nil_r, list_lookup_fmap.
        destruct (take PREVIEW_LIMIT (processedRows placeholder p st) !! i); [|done].
        simpl. by intros [= _ <-]. }
    rewrite existsb_exists. unfold someRowHasLabels. split.
    + intros (r & Hin & Hsize). exists r. split; [by apply list_elem_of_In|].
      intros Hempty. rewrite Hempty, map_size_empty in Hsize. done.
    + intros (r & Hin & Hlabels). exists r. split; [by apply list_elem_of_In|].
      apply Nat.ltb_lt. apply Nat.neq_0_lt_0. by rewrite map_size_non_empty_iff.
  - intros shown Hshown. revert Hi. unfold render. cbv zeta. simpl logsRows.
    rewrite Hshown.
    destruct (0 <? length (rows (data p))) eqn:HhasData; [|by destruct i].
    destruct (deferLogs st), (renderAll st); cbn [andb negb].
    + by destruct i as [|[|i]].
    + by destruct i as [|[|i]].
    + rewrite app_nil_r, lookup_take_drop_fmap.
      destruct (processedRows placeholder p st !! i); [|done].
      simpl. destruct (i <? PREVIEW_LIMIT); by intros [= _ <-].
    + rewrite !app_nil_r, list_lookup_fmap.
      destruct (take PREVIEW_LIMIT (processedRows placeholder p st) !! i); [|done].
      simpl. by intros [= _ <-].
  - intros w checked Hl. simpl. unfold whenMounted, onChangeLabels. rewrite Hl.
    by rewrite setState_mounted_plain by done.
  - intros w e Hset.
    assert (∀ (u : StateUpdate LogLevel) w',
              showLabels (state w') ≠ None → setShowLabels u ≠ Some None →
              showLabels (state (setState u w')) ≠ None) as Hkeeps.
    { intros u w' Hset' Hu. unfold setState, componentDidUpdate.
      destruct (lifecycle w'); simpl; try done.
      assert (default (showLabels (state w')) (setShowLabels u) ≠ None)
        by (destruct (setShowLabels u) as [[|]|]; simpl; congruence).
      by repeat case_match. }
    destruct e; simpl; unfold whenMounted.
    + destruct (lifecycle w); [|done..]. unfold componentDidMount. simpl.
      by destruct (deferLogs (state w)).
    + destruct (lifecycle w); [done| |done]. simpl. unfold componentWillUnmount.
      by destruct (clearTimeout_fields (renderAllTimer w) (clearTimeout (deferLogsTimer w) w))
        as (-> & _), (clearTimeout_fields (deferLogsTimer w) w) as (-> & _).
    + destruct (lifecycle w); [done| |done].
      by rewrite componentDidUpdate_same_deferLogs.
    + done.
    + unfold fire. repeat case_match; try done; subst; unfold runCallback;
        destruct (callback _); by apply Hkeeps.
    + destruct (lifecycle w); [done| |done]. unfold onChangeDedup. cbv zeta.
      apply Hkeeps; [done|]. by destruct (bool_decide _).
    + destruct (lifecycle w); [done| |done]. by apply Hkeeps.
    + destruct (lifecycle w); [done| |done]. by apply Hkeeps.
    + destruct (lifecycle w); [done| |done]. by apply Hkeeps.
    + destruct (lifecycle w); [done| |done]. by apply Hkeeps.
Qed.

(** X8. The meta line is shown when the model has rows. It lists the
    meta items of the model, unchanged and in order; under a strategy other
    than [none] one more item follows, "Dedup count", whose value added to the
    number of processed rows gives the number of rows left by the level
    filter. *)
Theorem meta_line_counts_duplicates p st :
  0 < rowCount p →
  (dedup st = LogsDedupStrategy.none →
     metaPanel (render placeholder p st) = Some (meta (data p)))
  ∧ (dedup st ≠ LogsDedupStrategy.none →
       ∃ n, metaPanel (render placeholder p st)
            = Some (meta (data p) ++
                    [{| label := "Dedup count"; value := NumberValue n;
                        kind := LogsMetaKind.Number |}])
            ∧ n + length (processedRows placeholder p st)
              = length (rows (filterLogLevels (data p) (hiddenLogLevels st)))).
Proof.
  intros Hdata. apply Nat.ltb_lt in Hdata. unfold rowCount in Hdata.
  unfold render. cbv zeta. simpl metaPanel. rewrite Hdata. split.
  - intros ->. simpl. by rewrite app_nil_r.
  - intros Hs. rewrite bool_decide_true by done. eexists. split; [done|].
    unfold processedRows, dedupLogRows. simpl rows.
    rewrite dedupCount_sum, dedupRows_runsOf by done.
    rewrite length_fmap, survivors_count. by rewrite runsOf_concat.
Qed.

End PanelProperties.

(** * Properties of the [Row] component *)

Section RowProperties.
Context {LogLevel : Type} {LogLevel_eq : EqDecision LogLevel}
  {LogLevel_countable : Countable LogLevel} {Matcher LogsLabelStat : Type}.
Variable getParser : string → option (@RowComponent.LogsParser Matcher).
Variable calculateFieldStats : list (LogRow LogLevel) → Matcher → list LogsLabelStat.
Variable statCount : LogsLabelStat → nat.
Variable trim : string → string.

Import RowComponent.

Local Abbreviation Row := (@Component LogLevel Matcher LogsLabelStat).
Local Abbreviation rowStep := (step getParser calculateFieldStats statCount trim).
Local Abbreviation rowRun := (run getParser calculateFieldStats statCount trim).
Local Abbreviation rowReachable := (reachable getParser calculateFieldStats statCount trim).
Local Abbreviation rowFire := (fire getParser trim).
Local Abbreviation rowInv := (hoverInv statCount).

Implicit Types (w : Row) (e : @Event LogLevel) (p : RowProps LogLevel).
Implicit Types (st : @RowState Matcher LogsLabelStat).

(** ** The hover timer *)

Lemma row_clearTimeout_nil id w :
  pendingTimers w = [] → pendingTimers (clearTimeout id w) = [].
Proof. destruct id; simpl; [|done]. by intros ->. Qed.

Lemma row_clearTimeout_same t w :
  pendingTimers w = [t] → pendingTimers (clearTimeout (Some (hoverTimerId t)) w) = [].
Proof.
  simpl. intros ->. by rewrite filter_cons_False by (intros Hne; by apply Hne).
Qed.

Lemma row_clearTimeout_fields id w :
  state (clearTimeout id w) = state w ∧ props (clearTimeout id w) = props w
  ∧ mounted (clearTimeout id w) = mounted w ∧ hovering (clearTimeout id w) = hovering w
  ∧ clock (clearTimeout id w) = clock w ∧ typeErrors (clearTimeout id w) = typeErrors w
  ∧ setStateCalls (clearTimeout id w) = setStateCalls w
  ∧ mouseMessageTimer (clearTimeout id w) = mouseMessageTimer w.
Proof. by destruct id. Qed.

(** [parseMessage] touches the state only, and of the state only the
    three fields it names. *)
Lemma parseMessage_fields w :
  pendingTimers (parseMessage getParser trim w) = pendingTimers w
  ∧ mounted (parseMessage getParser trim w) = mounted w
  ∧ hovering (parseMessage getParser trim w) = hovering w
  ∧ clock (parseMessage getParser trim w) = clock w
  ∧ typeErrors (parseMessage getParser trim w) = typeErrors w
  ∧ mouseMessageTimer (parseMessage getParser trim w) = mouseMessageTimer w
  ∧ fieldCount (state (parseMessage getParser trim w)) = fieldCount (state w)
  ∧ fieldStats (state (parseMessage getParser trim w)) = fieldStats (state w)
  ∧ showFieldStats (state (parseMessage getParser trim w)) = showFieldStats (state w)
  ∧ ((parsed (state w) = true → is_Some (parser (state w))) →
     parsed (state (parseMessage getParser trim w)) = true →
     is_Some (parser (state (parseMessage getParser trim w)))).
Proof.
  unfold parseMessage, setState.
  destruct (parsed (state w)) eqn:Hparsed; simpl; [by rewrite Hparsed|].
  destruct (getParser (entry (row (props w)))); simpl; [|by rewrite Hparsed].
  destruct (mounted w); simpl; repeat split; try done.
  intros _. by rewrite Hparsed.
Qed.

Lemma row_fire_none id w : pendingTimers w = [] → rowFire id w = w.
Proof. unfold fire. by intros ->. Qed.

Lemma row_fire_other id t w :
  pendingTimers w = [t] → hoverTimerId t ≠ id → rowFire id w = w.
Proof. unfold fire. intros -> Hid. simpl. by case_decide. Qed.

Lemma row_fire_early t w :
  pendingTimers w = [t] → clock w < dueAt t → rowFire (hoverTimerId t) w = w.
Proof.
  unfold fire. intros -> Hdue. simpl. case_decide; [|done].
  destruct (Nat.leb_spec (dueAt t) (clock w)); [lia|done].
Qed.

Lemma row_fire_due t w :
  pendingTimers w = [t] → dueAt t ≤ clock w →
  rowFire (hoverTimerId t) w
  = parseMessage getParser trim (withTimers (nextTimerId w) [] w).
Proof.
  unfold fire. intros -> Hdue. simpl. case_decide; [|done].
  destruct (Nat.leb_spec (dueAt t) (clock w)); [|lia].
  by rewrite filter_cons_False by (intros Hne; by apply Hne).
Qed.

Lemma mouseEnter_idle w :
  mounted w = true → hovering w = false →
  rowStep MouseEnter w
  = withMouseMessageTimer (Some (nextTimerId w))
      (withTimers (S (nextTimerId w))
         (pendingTimers w ++
            [{| hoverTimerId := nextTimerId w; hoverSetAt := clock w; hoverDelay := 500 |}])
         (withPointer true true w)).
Proof. intros Hm Hh. simpl. by rewrite Hm, Hh. Qed.

Lemma step_hoverInv e w : rowInv w → rowInv (rowStep e w).
Proof.
  intros Hinv. pose proof Hinv as (Herr & Hparser & Hcount & Hunm & Hidle & Hhover).
  destruct e; simpl.
  - (* MouseEnter *)
    destruct (mounted w) eqn:Hm, (hovering w) eqn:Hh; simpl;
      try done.
    destruct (Hidle eq_refl) as [Htimers Hparsed].
    unfold onMouseOverMessage, hoverInv. simpl. rewrite Htimers. simpl.
    split_and!; try done. intros _. right. eauto 10.
  - (* MouseLeave *)
    destruct (mounted w) eqn:Hm, (hovering w) eqn:Hh; simpl;
      try done.
    unfold onMouseOutMessage, setState, hoverInv. simpl.
    assert (pendingTimers (clearTimeout (mouseMessageTimer w) (withPointer true false w)) = [])
      as Hcleared.
    { destruct (Hhover eq_refl) as [Htimers|(t & Htimers & Hid & _)].
      - by apply row_clearTimeout_nil.
      - rewrite Hid. by apply row_clearTimeout_same. }
    destruct (row_clearTimeout_fields (mouseMessageTimer w) (withPointer true false w))
      as (Hst & _ & Hm' & Hh' & _ & Herr' & _).
    rewrite Hm', Hh', Herr', Hst, Hcleared. simpl. by split_and!.
  - (* ClickHighlight *)
    destruct (mounted w) eqn:Hm, (parsed (state w)) eqn:Hparsed; simpl;
      try done.
    destruct (Hparser eq_refl) as [activeParser Hactive].
    unfold onClickHighlight. rewrite Hactive.
    destruct (fieldRegexMatch activeParser fieldText) as [[fieldLabel fieldValue]|];
      [|done].
    unfold setState, hoverInv. simpl. rewrite Hm, Hparsed, Hactive. simpl.
    split_and!; try done; eauto.
  - (* ClickClose *)
    destruct (mounted w) eqn:Hm, (showFieldStats (state w)) eqn:Hshown; simpl;
      try done.
    unfold onClickClose, setState, hoverInv. simpl. rewrite Hm. simpl.
    by split_and!.
  - (* ReceiveProps *)
    destruct (mounted w) eqn:Hm; [|done]. unfold hoverInv. simpl. by rewrite Hm.
  - (* Elapse *)
    unfold hoverInv. simpl. split_and!; try done.
    intros Hh. destruct (Hhover Hh) as [Htimers|(t & Htimers & Hid & Hdelay & Hset)];
      [by left|right]. exists t. split_and!; try done. lia.
  - (* Fire *)
    destruct (hovering w) eqn:Hh.
    + destruct (Hhover eq_refl) as [Htimers|(t & Htimers & Hid & Hdelay & Hset)];
        [by rewrite row_fire_none|].
      destruct (decide (hoverTimerId t = id)) as [<-|Hne];
        [|by rewrite (row_fire_other id t)].
      destruct (Nat.lt_ge_cases (clock w) (dueAt t)); [by rewrite row_fire_early|].
      rewrite row_fire_due by done.
      destruct (parseMessage_fields (withTimers (nextTimerId w) [] w))
        as (Ht & Hm' & Hh' & _ & Herr' & _ & Hc & Hs & _ & Hp).
      unfold hoverInv. rewrite Ht, Hm', Hh', Herr', Hc, Hs. simpl.
      rewrite Hh. split_and!; try done; [by apply Hp|by left].
    + destruct (Hidle eq_refl) as [Htimers _]. by rewrite row_fire_none.
  - (* Unmount *)
    destruct (mounted w) eqn:Hm; simpl; [|done].
    unfold componentWillUnmount, hoverInv. simpl.
    assert (pendingTimers (clearTimeout (mouseMessageTimer w) w) = []) as Hcleared.
    { destruct (hovering w) eqn:Hh.
      - destruct (Hhover eq_refl) as [Htimers|(t & Htimers & Hid & _)].
        + by apply row_clearTimeout_nil.
        + rewrite Hid. by apply row_clearTimeout_same.
      - destruct (Hidle eq_refl) as [Htimers _]. by apply row_clearTimeout_nil. }
    destruct (row_clearTimeout_fields (mouseMessageTimer w) w)
      as (Hst & _ & _ & _ & _ & Herr' & _).
    rewrite Hst, Herr', Hcleared. by split_and!.
Qed.

Lemma new_hoverInv p : rowInv (new p : Row).
Proof. unfold hoverInv. simpl. by split_and!. Qed.

Lemma reachable_hoverInv p w : rowReachable p w → rowInv w.
Proof.
  induction 1 as [|e w _ IH]; [apply new_hoverInv|by apply step_hoverInv].
Qed.



(** X9. Hovering parses only after 500 ms. When the pointer enters the
    message of an idle row one timer is set, with a delay of 500 ms; it does
    not run earlier; if the pointer leaves first, however late, the timer is
    gone and the state is what it was before the pointer came; once it runs,
    the row is parsed exactly when [getParser] finds a parser for its entry,
    and the highlights are the trimmed matches of that parser's field
    pattern. *)
Theorem hover_parses_after_500 p0 w :
  rowReachable p0 w → mounted w = true → hovering w = false →
  pendingTimers (rowStep MouseEnter w)
  = [{| hoverTimerId := nextTimerId w; hoverSetAt := clock w; hoverDelay := 500 |}]
  ∧ (∀ ms, ms < 500 →
       rowStep (Fire (nextTimerId w)) (rowStep (Elapse ms) (rowStep MouseEnter w))
       = rowStep (Elapse ms) (rowStep MouseEnter w))
  ∧ (∀ ms,
       pendingTimers (rowStep MouseLeave (rowStep (Elapse ms) (rowStep MouseEnter w))) = []
       ∧ state (rowStep MouseLeave (rowStep (Elapse ms) (rowStep MouseEnter w))) = state w)
  ∧ (∀ ms, 500 ≤ ms →
       (parsed (state (rowStep (Fire (nextTimerId w))
                         (rowStep (Elapse ms) (rowStep MouseEnter w)))) = true
        ↔ is_Some (getParser (entry (row (props w)))))
       ∧ ∀ found, getParser (entry (row (props w))) = Some found →
           parsedFieldHighlights
             (state (rowStep (Fire (nextTimerId w))
                       (rowStep (Elapse ms) (rowStep MouseEnter w))))
           = trim <$> fieldRegexMatches found (entry (row (props w)))).
Proof.
  intros Hreach Hm Hh.
  destruct (reachable_hoverInv p0 w Hreach) as (_ & _ & _ & _ & Hidle & _).
  destruct (Hidle Hh) as [Htimers Hparsed]. specialize (Hparsed Hm).
  rewrite mouseEnter_idle by done. rewrite Htimers. simpl app.
  set (t := {| hoverTimerId := nextTimerId w; hoverSetAt := clock w; hoverDelay := 500 |}).
  split; [done|]. split; [|split].
  - intros ms Hms. simpl step. apply (row_fire_early t); [done|].
    unfold dueAt. simpl. lia.
  - intros ms. simpl. unfold onMouseOutMessage, setState. simpl.
    rewrite filter_cons_False by (intros Hne; by apply Hne). split; [done|].
    destruct (state w). simpl in *. by rewrite Hparsed.
  - intros ms Hms. simpl step.
    rewrite (row_fire_due t) by (done || unfold dueAt; simpl; lia).
    unfold parseMessage, setState. simpl. rewrite Hparsed. simpl.
    destruct (getParser (entry (row (props w)))) as [found|]; simpl.
    + split; [by split; eauto|]. by intros ? [= <-].
    + rewrite Hparsed. split; [|done]. split; [done|]. by intros [? ?].
Qed.


(** X11. Clicking a highlighted field never throws. [onClickHighlight]
    reads [fieldRegex] off [state.parser], which starts as [null]; the icon
    that calls it exists only on a parsed row, and a parsed row always has its
    parser, so no [TypeError] is ever thrown. *)
Theorem click_highlight_never_throws p0 w fieldText :
  rowReachable p0 w →
  typeErrors w = 0
  ∧ typeErrors (rowStep (ClickHighlight fieldText) w) = 0
  ∧ (parsed (state w) = true →
       is_Some (onClickHighlight calculateFieldStats statCount fieldText w)).
Proof.
  intros Hreach. pose proof (reachable_hoverInv p0 w Hreach) as Hinv.
  pose proof (step_hoverInv (ClickHighlight fieldText) w Hinv) as (Herr' & _).
  destruct Hinv as (Herr & Hparser & _).
  split; [done|]. split; [done|]. intros Hparsed.
  destruct (Hparser Hparsed) as [activeParser Hactive].
  unfold onClickHighlight. rewrite Hactive.
  by destruct (fieldRegexMatch activeParser fieldText) as [[? ?]|].
Qed.


(** X13. The message shows the entry exactly once: as the highlighter of
    parsed fields when the row is parsed, else as the highlighter of search
    matches when there is something to highlight, else as bare text; the
    statistics follow it when they are open, and nothing else does. *)
Theorem message_shows_entry_once p st :
  message (render p st)
  = (if parsed st then FieldHighlighter (entry (row p)) (parsedFieldHighlights st)
     else if needsHighlighter p
          then MatchHighlighter (entry (row p)) (default [] (highlights p))
                 (previewHighlights p)
          else PlainEntry (entry (row p)))
    :: (if showFieldStats st
        then [StatsBox (fieldStats st) (fieldLabel st) (fieldValue st) (fieldCount st)]
        else [])
  ∧ length (filter (λ child, isStatsBox child = false) (message (render p st))) = 1.
Proof.
  unfold render. simpl.
  by destruct (parsed st), (needsHighlighter p), (showFieldStats st).
Qed.

(** X14. Highlighter expressions handed to a row override its own search
    words whenever the two differ: an unparsed row then highlights the
    expressions, in the preview style, and when the list of expressions is
    empty it shows bare text even though it has search words of its own. A
    row handed no expressions highlights its own search words, in the normal
    style. *)
Theorem given_expressions_override_search_words p st :
  parsed st = false →
  (∀ expressions,
     rowHighlighterExpressions p = Some expressions →
     Some expressions ≠ searchWords (row p) →
     head (message (render p st))
     = Some (if 0 <? length expressions
             then MatchHighlighter (entry (row p)) expressions true
             else PlainEntry (entry (row p))))
  ∧ (rowHighlighterExpressions p = None ∨ rowHighlighterExpressions p = searchWords (row p) →
     head (message (render p st))
     = Some (match searchWords (row p) with
             | Some (word :: words) =>
                 MatchHighlighter (entry (row p)) (word :: words) false
             | _ => PlainEntry (entry (row p))
             end)).
Proof.
  intros Hparsed. unfold render, needsHighlighter, highlights, previewHighlights.
  simpl. rewrite Hparsed. simpl. split.
  - intros expressions -> Hdiffer. rewrite bool_decide_false by done. simpl.
    by destruct (0 <? length expressions).
  - intros [->| ->].
    + by destruct (searchWords (row p)) as [[|word words]|].
    + destruct (searchWords (row p)) as [[|word words]|] eqn:Hwords; simpl; try done;
        by rewrite bool_decide_true.
Qed.

(** X15. The statistics of a field. The row count shown in the
    statistics is always the sum of the counts of the listed values; the
    statistics stay open whatever happens to the row (the pointer leaving, a
    timer, new props) until they are closed, and closing hides them. *)
Theorem stats_box_stays_until_closed p0 w e :
  rowReachable p0 w →
  fieldCount (state w) = sumOfCounts statCount (fieldStats (state w))
  ∧ (showFieldStats (state w) = true → e ≠ ClickClose →
       showFieldStats (state (rowStep e w)) = true)
  ∧ (mounted w = true → showFieldStats (state w) = true →
       showFieldStats (state (rowStep ClickClose w)) = false).
Proof.
  intros Hreach. destruct (reachable_hoverInv p0 w Hreach) as (_ & _ & Hcount & _).
  split; [done|]. split.
  - intros Hshown He. destruct e; simpl; try done.
    + destruct (mounted w && negb (hovering w)); [|done].
      unfold onMouseOverMessage. by simpl.
    + destruct (mounted w && hovering w) eqn:Hguard; [|done].
      unfold onMouseOutMessage, setState. simpl.
      destruct (row_clearTimeout_fields (mouseMessageTimer w) (withPointer true false w))
        as (-> & _). simpl.
      destruct (row_clearTimeout_fields (mouseMessageTimer w) (withPointer true false w))
        as (_ & _ & -> & _). by simpl.
    + destruct (mounted w && parsed (state w)); [|done].
      unfold onClickHighlight.
      destruct (parser (state w)) as [activeParser|]; [|done].
      destruct (fieldRegexMatch activeParser fieldText) as [[? ?]|]; [|done].
      unfold setState. simpl. by destruct (mounted w).
    + by destruct (mounted w).
    + unfold fire. repeat case_match; try done.
      by destruct (parseMessage_fields
                     (withTimers (nextTimerId w)
                        (filter (λ t', hoverTimerId t' ≠ id) (pendingTimers w)) w))
        as (_ & _ & _ & _ & _ & _ & _ & _ & -> & _).
    + destruct (mounted w); [|done]. simpl. unfold componentWillUnmount.
      by destruct (row_clearTimeout_fields (mouseMessageTimer w) w) as (-> & _).
  - intros Hm Hshown. simpl. rewrite Hm, Hshown. simpl.
    unfold onClickClose, setState. simpl. by rewrite Hm.
Qed.

End RowProperties.

(** * The duplicates cells of the rows area *)

Section RowsAreaProperties.
Context {LogLevel : Type} {LogLevel_eq : EqDecision LogLevel}
  {LogLevel_countable : Countable LogLevel} {Series : Type}
  {Matcher LogsLabelStat : Type}.
Variable placeholder : string.

Lemma shownRowTotal_app (stateOf : RowProps LogLevel → @RowComponent.RowState Matcher LogsLabelStat)
    (xs ys : list (RowsChild LogLevel)) :
  shownRowTotal stateOf (xs ++ ys) = shownRowTotal stateOf xs + shownRowTotal stateOf ys.
Proof. unfold shownRowTotal. by rewrite fmap_app, sum_list_with_app. Qed.

Lemma shownRowTotal_rows (stateOf : RowProps LogLevel → @RowComponent.RowState Matcher LogsLabelStat)
    (mk : LogRow LogLevel → RowsChild LogLevel) (rs : list (LogRow LogLevel)) :
  (∀ r, ∃ reactKey p, mk r = RowElement reactKey p ∧ row p = r ∧ showDuplicates p = true) →
  shownRowTotal stateOf (mk <$> rs) = sum_list (duplicates <$> rs) + length rs.
Proof.
  intros Hmk. unfold shownRowTotal.
  induction rs as [|r rs IH]; [done|]. csimpl. rewrite IH.
  destruct (Hmk r) as (reactKey & p & -> & Hrow & Hshow).
  unfold shownMultiplicity, RowComponent.render. simpl. rewrite Hshow, Hrow.
  destruct (duplicates r); simpl; lia.
Qed.

(** X16. The duplicate badges account for every row. Under a strategy
    other than [none], once the panel shows all its rows, the numbers the rows
    show in their duplicates cells (the [n] of "nx", one for an empty cell)
    add up to the number of rows the level filter left. *)
Theorem duplicate_badges_account_for_rows p (st : LogsState LogLevel)
    (stateOf : RowProps LogLevel → @RowComponent.RowState Matcher LogsLabelStat) :
  dedup st ≠ LogsDedupStrategy.none → phase st = full →
  shownRowTotal stateOf (logsRows (render (Series:=Series) placeholder p st))
  = length (rows (filterLogLevels (data p) (hiddenLogLevels st))).
Proof.
  intros Hs Hfull. apply phase_full in Hfull as [Hd Hra].
  assert (sum_list (duplicates <$> processedRows placeholder p st)
          + length (processedRows placeholder p st)
          = length (rows (filterLogLevels (data p) (hiddenLogLevels st)))) as Hsum.
  { unfold processedRows, dedupLogRows. simpl rows.
    rewrite dedupRows_runsOf by done.
    rewrite length_fmap, survivors_count. by rewrite runsOf_concat. }
  unfold render. cbv zeta. simpl logsRows. rewrite Hd, Hra. cbn [andb negb].
  destruct (0 <? length (rows (data p))) eqn:HhasData; cbn [andb].
  - rewrite app_nil_r, shownRowTotal_app.
    rewrite !shownRowTotal_rows
      by (intros r; eexists _, _; split; [reflexivity|]; split; [done|];
          simpl; by rewrite bool_decide_true).
    etrans; [|exact Hsum].
    rewrite <- (take_drop PREVIEW_LIMIT (processedRows placeholder p st)) at 5 6.
    rewrite fmap_app, sum_list_with_app, length_app. lia.
  - simpl. etrans; [|exact Hsum].
    apply Nat.ltb_ge in HhasData.
    rewrite processedRows_no_data; [done|].
    destruct (rows (data p)); [done|simpl in HhasData; lia].
Qed.

End RowsAreaProperties.

(** * Properties of the Loki query field *)

Section LokiProperties.
Import LokiQueryField.

Lemma append_empty_r (s : string) : s +:+ "" = s.
Proof.
  induction s as [|c s IH]; [done|].
  change (String c (s +:+ "") = String c s). by f_equal.
Qed.

Lemma append_associative (a b c : string) : (a +:+ b) +:+ c = a +:+ (b +:+ c).
Proof.
  induction a as [|x a IH]; [done|].
  change (String x ((a +:+ b) +:+ c) = String x (a +:+ (b +:+ c))). by f_equal.
Qed.

(** X17. Applying a suggestion only ever adds to it: the result is the
    suggestion with at most a double quote before it and at most one character
    after it. The quote before it is added exactly in the label-values context
    when the text typed so far does not start a quoted value; a quote after it
    exactly in that context when the next character is not a quote; an [=]
    after it exactly in the labels context when there is no next character or
    it is a closing brace or a comma. In any other context the suggestion is
    returned as it is. *)
Theorem willApplySuggestion_only_adds nextChar suggestion st :
  ∃ before after,
    willApplySuggestion nextChar suggestion st = before +:+ suggestion +:+ after
    ∧ (before = quote ∨ before = "")
    ∧ (after = "=" ∨ after = quote ∨ after = "")
    ∧ (before = quote
       ↔ typeaheadContext st = Some "context-label-values"
         ∧ matchesOperatorQuote (typeaheadText st) = false)
    ∧ (after = quote
       ↔ typeaheadContext st = Some "context-label-values" ∧ nextChar ≠ Some quote)
    ∧ (after = "="
       ↔ typeaheadContext st = Some "context-labels"
         ∧ (nextChar = None ∨ nextChar = Some "" ∨ nextChar = Some "}"
            ∨ nextChar = Some ",")).
Proof.
  exists (if bool_decide (typeaheadContext st = Some "context-label-values")
            && negb (matchesOperatorQuote (typeaheadText st))
          then quote else ""),
         (if bool_decide (typeaheadContext st = Some "context-labels")
          then (if noNextChar nextChar || bool_decide (nextChar = Some "}")
                   || bool_decide (nextChar = Some ",")
                then "=" else "")
          else if bool_decide (typeaheadContext st = Some "context-label-values")
               then (if bool_decide (nextChar ≠ Some quote) then quote else "")
               else "").
  unfold willApplySuggestion, noNextChar, quote.
  destruct (matchesOperatorQuote (typeaheadText st)), nextChar as [c|];
    repeat case_bool_decide; simpl;
    rewrite ?append_empty_r, ?append_associative;
    split_and!; try done; try (by left); try (by right; left); try (by right; right);
    intuition congruence.
Qed.

Lemma startsWith_quote_inv (text : string) :
  startsWith quote text = true → ∃ rest, text = quote +:+ rest.
Proof.
  unfold quote. destruct text as [|c rest]; cbn [startsWith]; [done|].
  destruct (Ascii.eqb_spec "034" c) as [<-|]; [|done]. intros _. by exists rest.
Qed.

Lemma skipOptional_cases (c : ascii) (text : string) :
  (text = String c (skipOptional c text))
  ∨ (skipOptional c text = text ∧ ∀ rest, text ≠ String c rest).
Proof.
  destruct text as [|c' rest]; simpl; [by right|].
  destruct (Ascii.eqb_spec c c') as [<-|Hne]; [by left|right].
  split; [done|]. intros ? [=]. congruence.
Qed.

(** X18. The text typed so far counts as starting a quoted value exactly
    when it begins with a double quote, possibly after one of the operators
    [=], [=~], [!=] and [!=~]: those are the texts for which no opening quote
    is added. *)
Theorem operator_quote_prefixes (text : string) :
  matchesOperatorQuote text = true
  ↔ ∃ operator rest,
      operator ∈ [""; "="; "=~"; "!="; "!=~"] ∧ text = operator +:+ quote +:+ rest.
Proof.
  split.
  - unfold matchesOperatorQuote. intros [Hop|Hquote]%orb_true_iff.
    + destruct (skipOptional "!" text) as [|c afterBang] eqn:Hbang; [done|].
      apply andb_true_iff in Hop as [Heq Hquote].
      apply Ascii.eqb_eq in Heq as ->.
      apply startsWith_quote_inv in Hquote as [rest Hrest].
      destruct (skipOptional_cases "~" afterBang) as [Htilde|[Htilde _]];
        destruct (skipOptional_cases "!" text) as [Hbang'|[Hbang' _]];
        rewrite Hbang in Hbang'.
      * exists "!=~", rest. split; [set_solver|].
        by rewrite Hbang', Htilde, Hrest.
      * exists "=~", rest. split; [set_solver|].
        by rewrite <- Hbang', Htilde, Hrest.
      * exists "!=", rest. split; [set_solver|].
        rewrite Htilde in Hrest. by rewrite Hbang', Hrest.
      * exists "=", rest. split; [set_solver|].
        rewrite Htilde in Hrest. by rewrite <- Hbang', Hrest.
    + apply startsWith_quote_inv in Hquote as [rest ->].
      exists "", rest. split; [set_solver|done].
  - intros (operator & rest & Hin & ->).
    repeat (apply elem_of_cons in Hin as [->|Hin]; [by vm_compute|]).
    by apply not_elem_of_nil in Hin.
Qed.

Section FieldProperties.
Context {Value : Type}.
Variable stringValue : string → Value.

(** X19. Loading the values of a label marks that label and nothing
    else. With the selection ending in [targetOption], every option of the
    chooser keeps its place and all its fields but [loading], which becomes
    true for the options whose value is that of [targetOption] and stays what
    it was for the others; the fetch asked of the language provider is for that
    value; without a provider the call throws after marking. Marking twice is
    marking once, and an empty selection throws and changes nothing. *)
Theorem loadOptions_marks_selected hasLanguageProvider selectedOptions targetOption
    (st : LokiQueryFieldState) :
  last selectedOptions = Some targetOption →
  length (logLabelOptions (loadOptions (Value:=Value) hasLanguageProvider selectedOptions st).1)
  = length (logLabelOptions st)
  ∧ (∀ i option,
       logLabelOptions st !! i = Some option →
       ∃ marked,
         logLabelOptions (loadOptions (Value:=Value) hasLanguageProvider selectedOptions st).1 !! i
         = Some marked
         ∧ label marked = label option ∧ value marked = value option
         ∧ children marked = children option ∧ disabled marked = disabled option
         ∧ loading marked
           = (if bool_decide (value option = value targetOption)
              then Some true else loading option))
  ∧ syntaxLoaded (loadOptions (Value:=Value) hasLanguageProvider selectedOptions st).1
    = syntaxLoaded st
  ∧ (loadOptions hasLanguageProvider selectedOptions st).2
    = (if hasLanguageProvider
       then Returned [FetchLabelValues (Value:=Value) (value targetOption)]
       else Threw)
  ∧ (loadOptions (Value:=Value) hasLanguageProvider selectedOptions
       (loadOptions (Value:=Value) hasLanguageProvider selectedOptions st).1).1
    = (loadOptions (Value:=Value) hasLanguageProvider selectedOptions st).1
  ∧ loadOptions (Value:=Value) hasLanguageProvider [] st = (st, Threw).
Proof.
  intros Hlast. unfold loadOptions. rewrite Hlast. simpl. split_and!; try done.
  - by rewrite length_fmap.
  - intros i option Hi. rewrite list_lookup_fmap, Hi. simpl.
    eexists. split; [done|]. unfold markLoading. by case_bool_decide.
  - f_equal. rewrite <- list_fmap_compose. apply list_fmap_ext.
    intros i option _. simpl. unfold markLoading.
    repeat (case_bool_decide; simpl in *); done.
Qed.

(** X20. Choosing a label and a value in the chooser sends the parent
    one query, overriding, whose [expr] is the selector of that label and
    value in braces, the value in double quotes, and whose other fields are
    those of [initialQuery]. A selection of any other length sends nothing,
    and nothing is sent when the parent gave no [onQueryChange]. *)
Theorem onChangeLogLabels_builds_selector (props : QueryProps) keyOption valueOption :
  hasOnQueryChange props = true →
  (∃ query,
     onChangeLogLabels stringValue props [keyOption; valueOption]
     = [QueryChange query (Some true)]
     ∧ query !! "expr"
       = Some (stringValue ("{" +:+ value keyOption +:+ "=" +:+ quote
                            +:+ value valueOption +:+ quote +:+ "}"))
     ∧ ∀ field, field ≠ "expr" →
         query !! field = default ∅ (initialQuery props) !! field)
  ∧ (∀ selectedOptions, length selectedOptions ≠ 2 →
       onChangeLogLabels stringValue props selectedOptions = [])
  ∧ (∀ selectedOptions,
       onChangeLogLabels stringValue
         {| initialQuery := initialQuery props; hasOnQueryChange := false |}
         selectedOptions = []).
Proof.
  intros Hhandler. split; [|split].
  - unfold onChangeLogLabels, onChangeQuery. rewrite Hhandler.
    eexists. split; [done|]. split; [by rewrite lookup_insert_eq|].
    intros field Hfield. by rewrite lookup_insert_ne.
  - by intros [|a [|b [|c rest]]].
  - by intros [|a [|b [|c rest]]].
Qed.

End FieldProperties.

End LokiProperties.

(** * Properties of the legal entities form *)

Section LegalEntitiesProperties.
Context {File : Type}.
Import LegalEntitiesCtrl.

Implicit Types (c : @Ctrl File) (e : @Event File).

Lemma readsIds_onloadend reader result c :
  readsIds (onloadend reader result c) = filter (λ id, id ≠ reader) (readsIds c).
Proof.
  unfold readsIds, onloadend. simpl.
  induction (reading c) as [|[id f] rs IH]; [done|]. csimpl.
  destruct (decide (id = reader)) as [->|Hne].
  - rewrite !filter_cons_False by (simpl; intros Hne; by apply Hne). apply IH.
  - rewrite !filter_cons_True by done. csimpl. by rewrite IH.
Qed.

Lemma step_readsInv e c : readsInv c → readsInv (step e c).
Proof.
  intros (Hnodup & Hfresh & Hlogo). destruct e as [tabIndex|[file|]|reader result]; simpl.
  - done.
  - unfold readsInv, readsIds. simpl. rewrite fmap_app. simpl. split_and!; [| |done].
    + apply NoDup_app. split; [done|]. split; [|apply NoDup_singleton].
      intros id Hin ->%list_elem_of_singleton. apply Hfresh in Hin. lia.
    + intros id [Hin| ->%list_elem_of_singleton]%elem_of_app; [|lia].
      apply Hfresh in Hin. lia.
  - done.
  - case_bool_decide; [|done]. unfold readsInv. rewrite readsIds_onloadend.
    split_and!; [by apply NoDup_filter| |done].
    intros id [_ Hin]%list_elem_of_filter. by apply Hfresh.
Qed.

Lemma run_readsInv events : ∀ c, readsInv c → readsInv (run events c).
Proof.
  induction events as [|e events IH]; intros c Hinv; [done|].
  apply (IH (step e c)). by apply step_readsInv.
Qed.

(** X21. The logo is that of the read that ended last, not of the file
    picked last. Whatever was done with the form before: the logo is empty
    until a read has ended; picking no file starts nothing; picking a file
    starts one more read; and when two reads are under way and one ends after
    the other, the logo is the result of the one that ended second, whichever
    of the two files was picked first, with one [$apply] for each. A reader
    that is not reading changes nothing. *)
Theorem logo_is_last_finished_read events c :
  c = run events new →
  (applyCalls c = 0 → logoSrc c = Some "")
  ∧ step (GetFile None) c = c
  ∧ (∀ file, readsIds (step (GetFile (Some file)) c) = readsIds c ++ [nextReader c])
  ∧ (∀ earlier later resultEarlier resultLater,
       earlier ∈ readsIds c → later ∈ readsIds c → earlier ≠ later →
       logoSrc (step (LoadEnd later resultLater)
                  (step (LoadEnd earlier resultEarlier) c)) = resultLater
       ∧ applyCalls (step (LoadEnd later resultLater)
                       (step (LoadEnd earlier resultEarlier) c)) = applyCalls c + 2
       ∧ activeTabIndex (step (LoadEnd later resultLater)
                           (step (LoadEnd earlier resultEarlier) c)) = activeTabIndex c)
  ∧ (∀ reader result, reader ∉ readsIds c → step (LoadEnd reader result) c = c).
Proof.
  intros ->.
  assert (readsInv (run events (new (File:=File)))) as (Hnodup & Hfresh & Hlogo).
  { apply run_readsInv. unfold readsInv, readsIds. simpl.
    split_and!; [apply NoDup_nil_2|by intros ? ?%not_elem_of_nil|done]. }
  set (c := run events new) in *.
  split_and!; try done.
  - intros file. unfold readsIds. simpl. by rewrite fmap_app.
  - intros earlier later resultEarlier resultLater Hearlier Hlater Hne.
    assert (step (LoadEnd earlier resultEarlier) c = onloadend earlier resultEarlier c)
      as ->.
    { simpl. by rewrite bool_decide_true. }
    assert (later ∈ readsIds (onloadend earlier resultEarlier c)) as Hstill.
    { rewrite readsIds_onloadend. apply list_elem_of_filter. split; [congruence|done]. }
    simpl step. rewrite bool_decide_true by done. simpl. split_and!; [done|lia|done].
  - intros reader result Hnot. simpl. by rewrite bool_decide_false.
Qed.

End LegalEntitiesProperties.

(** * The theorems at the sample data *)

Section Instances.
Import Samples.

Lemma dedupRows_counts_absorbed_witness :
  LogsDedupStrategy.exact ≠ LogsDedupStrategy.none
  ∧ dedupCount (dedupRows "#" [rowA; rowA; rowB; rowA] LogsDedupStrategy.exact)
    + length (dedupRows "#" [rowA; rowA; rowB; rowA] LogsDedupStrategy.exact) = 4.
Proof.
  assert (LogsDedupStrategy.exact ≠ LogsDedupStrategy.none) as Hs by discriminate.
  split; [exact Hs|].
  exact (proj1 (proj2 (dedupRows_counts_absorbed "#" [rowA; rowA; rowB; rowA]
                         LogsDedupStrategy.exact Hs))).
Defined.

Lemma dedupRows_merges_adjacent_only_witness :
  length (dedupRows "#" [rowA; rowB; rowA] LogsDedupStrategy.exact) = 3
  ∧ dedupRows "#" [rowA; rowA; rowA] LogsDedupStrategy.exact = [withDuplicates rowA 2].
Proof.
  assert (LogsDedupStrategy.exact ≠ LogsDedupStrategy.none) as Hs by discriminate.
  assert (normalizedKey "#" LogsDedupStrategy.exact rowA
          ≠ normalizedKey "#" LogsDedupStrategy.exact rowB) as Hkey
    by (vm_compute; discriminate).
  destruct (dedupRows_merges_adjacent_only "#" LogsDedupStrategy.exact
              rowA rowB rowA rowA Hs Hkey eq_refl eq_refl) as (_ & Hthree & Hone & _).
  exact (conj Hthree Hone).
Defined.

Lemma renderAll_skips_preview_witness :
  rowCount (sampleProps 50) ≤ PREVIEW_LIMIT * 2
  ∧ phase (state (mounted 50)) ≠ previewOnly
  ∧ phase (state (step (Fire 1) (step (Elapse 50) (mounted 50)))) = full.
Proof.
  assert (reachable (sampleProps 50) (mounted 50)) as Hreach
    by apply reachable_step, reachable_new.
  assert (rowCount (sampleProps 50) ≤ PREVIEW_LIMIT * 2) as Hfew
    by (vm_compute; lia).
  destruct (renderAll_skips_preview (sampleProps 50) (mounted 50) Hreach)
    as (_ & Hdirect).
  destruct (Hdirect Hfew) as (Hnever & _ & Hruns).
  destruct (Hruns eq_refl eq_refl) as (id & Hid & Hfull).
  injection Hid as <-.
  split; [exact Hfew|]. split; [exact Hnever|].
  apply Hfull. vm_compute. lia.
Defined.

Lemma preview_then_full_after_2000_witness :
  PREVIEW_LIMIT * 2 < rowCount (sampleProps 500)
  ∧ phase (state (step (Fire 1) (step (Elapse 500) (mounted 500)))) = previewOnly.
Proof.
  assert (reachable (sampleProps 500) (mounted 500)) as Hreach
    by apply reachable_step, reachable_new.
  assert (PREVIEW_LIMIT * 2 < rowCount (sampleProps 500)) as Hmany
    by (vm_compute; lia).
  destruct (preview_then_full_after_2000 "#" (sampleProps 500) (mounted 500) Hreach Hmany)
    as (_ & Hruns & _).
  destruct (Hruns eq_refl eq_refl) as (id & Hid & Hpreview).
  injection Hid as <-.
  split; [exact Hmany|]. apply Hpreview. vm_compute. lia.
Defined.

Lemma defer_delay_is_row_count_witness :
  pendingTimers (mounted 500)
  = [{| timerId := 1; setAt := 0; delay := 500; callback := DeferLogsDone false |}].
Proof.
  exact (proj1 (proj1 (defer_delay_is_row_count (sampleProps 500)
                         (newLogs (sampleProps 500)) (reachable_new _)) eq_refl)).
Defined.

Lemma unmount_cancels_timers_witness :
  pendingTimers (mounted 500) ≠ []
  ∧ pendingTimers (step Unmount (mounted 500)) = []
  ∧ setStateCalls
      (run [Elapse 600; Fire 1; Elapse 3000; Fire 2] (step Unmount (mounted 500))) = [].
Proof.
  assert (reachable (sampleProps 500) (mounted 500)) as Hreach
    by apply reachable_step, reachable_new.
  destruct (unmount_cancels_timers (sampleProps 500) (mounted 500)
              [Elapse 600; Fire 1; Elapse 3000; Fire 2] Hreach eq_refl)
    as (_ & Hcancelled & _ & _ & Hcalls & _).
  split; [discriminate|]. exact (conj Hcancelled Hcalls).
Defined.

Lemma deferring_placeholder_when_data_witness :
  logsRows (render "#" (sampleProps 3) initialState) = [renderingSpan 3].
Proof.
  assert (0 < rowCount (sampleProps 3)) as Hdata by (vm_compute; lia).
  destruct (deferring_placeholder_when_data "#" (sampleProps 3) initialState eq_refl)
    as (_ & _ & Hshown & _).
  exact (Hshown Hdata).
Defined.

Lemma onChangeDedup_toggles_witness :
  dedup (state (onChangeDedup LogsDedupStrategy.exact (mounted 3)))
    = LogsDedupStrategy.exact
  ∧ dedup (state (onChangeDedup LogsDedupStrategy.exact
                    (onChangeDedup LogsDedupStrategy.exact (mounted 3))))
    = LogsDedupStrategy.none.
Proof.
  destruct (onChangeDedup_toggles (mounted 3) LogsDedupStrategy.exact eq_refl)
    as (_ & Hon & _).
  destruct (onChangeDedup_toggles
              (onChangeDedup LogsDedupStrategy.exact (mounted 3))
              LogsDedupStrategy.exact eq_refl) as (Hoff & _).
  split; [apply Hon; discriminate|]. apply Hoff. reflexivity.
Defined.

(** C9 as stated fails: a component that defers over a model without
    rows shows no placeholder, its rows area is empty. *)
Lemma deferring_without_rows_no_placeholder :
  ¬ (∀ (p : LogsProps string unit) (st : LogsState string),
       phase st = deferring →
       renderingSpan (length (processedRows "#" p st)) ∈ logsRows (render "#" p st)).
Proof.
  intros Hclaim.
  pose proof (Hclaim (props (mounted 0)) (state (mounted 0)) eq_refl) as Hshown.
  change (logsRows (render "#" (props (mounted 0)) (state (mounted 0))))
    with (@nil (RowsChild string)) in Hshown.
  by apply not_elem_of_nil in Hshown.
Qed.

(** ** The further properties at the sample data *)

Lemma phase_never_goes_back_witness :
  phaseRank (phase (state (mounted 500)))
  ≤ phaseRank (phase (state (run [Elapse 500; Fire 1; Elapse 2000; Fire 2] (mounted 500)))).
Proof.
  apply (phase_never_goes_back (sampleProps 500)).
  apply reachable_step, reachable_new.
Defined.

Lemma controls_leave_schedule_witness :
  pendingTimers (step (ChangeDedup LogsDedupStrategy.exact) (mounted 500))
  = pendingTimers (mounted 500).
Proof.
  exact (proj1 (proj2 (proj2 (controls_leave_schedule
                                (ChangeDedup LogsDedupStrategy.exact) (mounted 500)
                                eq_refl)))).
Defined.

Lemma one_timer_until_full_witness : length (pendingTimers (mounted 500)) ≤ 1.
Proof.
  apply (one_timer_until_full (sampleProps 500)).
  apply reachable_step, reachable_new.
Defined.

Lemma new_props_are_not_staged_witness :
  phase (state (shown 3)) = full
  ∧ renderedRows (view "#" (step (ReceiveProps (sampleProps 500)) (shown 3)))
    = processedRows "#" (sampleProps 500) (state (shown 3)).
Proof.
  assert (reachable (sampleProps 3) (shown 3)) as Hreach
    by (do 2 apply reachable_step; apply reachable_step, reachable_new).
  destruct (new_props_are_not_staged "#" (sampleProps 3) (shown 3) (sampleProps 500)
              Hreach eq_refl) as (_ & _ & _ & Hfull).
  split; [reflexivity|]. apply Hfull. reflexivity.
Defined.

Lemma row_elements_follow_processed_rows_witness :
  ∃ rowProps,
    logsRows (render "#" (sampleProps 3) (state (shown 3))) !! 0
    = Some (RowElement (key (row rowProps), duplicates (row rowProps)) rowProps)
    ∧ processedRows "#" (sampleProps 3) (state (shown 3)) !! 0 = Some (row rowProps)
    ∧ rowHighlighterExpressions rowProps = Some [].
Proof.
  destruct (logsRows (render "#" (sampleProps 3) (state (shown 3))) !! 0)
    as [child|] eqn:Hchild; [|vm_compute in Hchild; discriminate].
  destruct (row_elements_follow_processed_rows "#" (sampleProps 3) (state (shown 3))
              0 child Hchild) as [->|(rowProps & -> & Hrow & _ & Hexpr & _)].
  - vm_compute in Hchild. discriminate.
  - exists rowProps. split; [reflexivity|]. split; [exact Hrow|exact Hexpr].
Defined.

Lemma labels_column_auto_until_switched_witness :
  ∃ reactKey rowProps,
    logsRows (render "#" (sampleProps 3) (state (shown 3))) !! 0
    = Some (RowElement reactKey rowProps)
    ∧ (rowShowLabels rowProps = true ↔ someRowHasLabels (rows (data (sampleProps 3)))).
Proof.
  destruct (logsRows (render "#" (sampleProps 3) (state (shown 3))) !! 0)
    as [[reactKey rowProps|children]|] eqn:Hchild;
    [|vm_compute in Hchild; discriminate..].
  exists reactKey, rowProps. split; [reflexivity|].
  exact (proj1 (labels_column_auto_until_switched "#" (sampleProps 3) (state (shown 3))
                  0 reactKey rowProps Hchild) eq_refl).
Defined.

Lemma meta_line_counts_duplicates_witness :
  metaPanel (render "#" (sampleProps 3) (state (shown 3))) = Some [].
Proof.
  assert (0 < rowCount (sampleProps 3)) as Hdata by (vm_compute; lia).
  exact (proj1 (meta_line_counts_duplicates "#" (sampleProps 3) (state (shown 3)) Hdata)
           eq_refl).
Defined.

Lemma hover_parses_after_500_witness :
  RowComponent.pendingTimers (sampleRowStep RowComponent.MouseEnter idleRow)
  = [{| RowComponent.hoverTimerId := 1; RowComponent.hoverSetAt := 0;
        RowComponent.hoverDelay := 500 |}].
Proof.
  exact (proj1 (hover_parses_after_500 sampleGetParser sampleStats id id
                  (sampleRowProps None) idleRow (RowComponent.reachable_new _ _ _ _ _)
                  eq_refl eq_refl)).
Defined.


Lemma click_highlight_never_throws_witness :
  RowComponent.typeErrors (sampleRowStep (RowComponent.ClickHighlight "connection") parsedRow)
  = 0.
Proof.
  assert (RowComponent.reachable sampleGetParser sampleStats id id
            (sampleRowProps None) parsedRow) as Hreach
    by (do 3 apply RowComponent.reachable_step; apply RowComponent.reachable_new).
  exact (proj1 (proj2 (click_highlight_never_throws sampleGetParser sampleStats id id
                         (sampleRowProps None) parsedRow "connection" Hreach))).
Defined.


Lemma given_expressions_override_search_words_witness :
  head (RowComponent.message
          (RowComponent.render (sampleRowProps (Some ["reset"]))
             (RowComponent.initialState (Matcher:=string) (LogsLabelStat:=nat))))
  = Some (RowComponent.MatchHighlighter "connection reset by peer" ["reset"] true).
Proof.
  refine (proj1 (given_expressions_override_search_words
                   (sampleRowProps (Some ["reset"])) RowComponent.initialState eq_refl)
            ["reset"] eq_refl _).
  discriminate.
Defined.

Lemma stats_box_stays_until_closed_witness :
  RowComponent.fieldCount
    (RowComponent.state (sampleRowStep (RowComponent.ClickHighlight "connection") parsedRow))
  = 3
  ∧ RowComponent.showFieldStats
      (RowComponent.state
         (sampleRowStep RowComponent.MouseLeave
            (sampleRowStep (RowComponent.ClickHighlight "connection") parsedRow)))
    = true.
Proof.
  assert (RowComponent.reachable sampleGetParser sampleStats id id (sampleRowProps None)
            (sampleRowStep (RowComponent.ClickHighlight "connection") parsedRow)) as Hreach
    by (do 4 apply RowComponent.reachable_step; apply RowComponent.reachable_new).
  destruct (stats_box_stays_until_closed sampleGetParser sampleStats id id
              (sampleRowProps None)
              (sampleRowStep (RowComponent.ClickHighlight "connection") parsedRow)
              RowComponent.MouseLeave Hreach) as (Hcount & Hstays & _).
  split; [exact Hcount|]. apply Hstays; [reflexivity|discriminate].
Defined.

Lemma duplicate_badges_account_for_rows_witness :
  shownRowTotal (λ _, RowComponent.initialState (Matcher:=string) (LogsLabelStat:=nat))
    (logsRows (render "#" (sampleProps 3)
                 (state (step (ChangeDedup LogsDedupStrategy.exact) (shown 3)))))
  = length (rows (filterLogLevels (data (sampleProps 3))
                    (hiddenLogLevels
                       (state (step (ChangeDedup LogsDedupStrategy.exact) (shown 3)))))).
Proof.
  apply (duplicate_badges_account_for_rows (Series:=unit) "#" (sampleProps 3)).
  - vm_compute. discriminate.
  - reflexivity.
Defined.

Lemma loadOptions_marks_selected_witness :
  (LokiQueryField.loadOptions (Value:=string) true [jobOption; levelOption]
     sampleFieldState).2
  = LokiQueryField.Returned [LokiQueryField.FetchLabelValues "level"].
Proof.
  exact (proj1 (proj2 (proj2 (proj2
           (loadOptions_marks_selected (Value:=string) true [jobOption; levelOption]
              levelOption sampleFieldState eq_refl))))).
Defined.

Lemma onChangeLogLabels_builds_selector_witness :
  ∃ query,
    LokiQueryField.onChangeLogLabels id sampleQueryProps [jobOption; levelOption]
    = [LokiQueryField.QueryChange query (Some true)]
    ∧ query !! "refId" = Some "A".
Proof.
  destruct (onChangeLogLabels_builds_selector id sampleQueryProps jobOption levelOption
              eq_refl) as ((query & Hsent & _ & Hother) & _).
  exists query. split; [exact Hsent|].
  rewrite Hother by discriminate. vm_compute. reflexivity.
Defined.

Lemma logo_is_last_finished_read_witness :
  LegalEntitiesCtrl.logoSrc
    (LegalEntitiesCtrl.step (LegalEntitiesCtrl.LoadEnd 0 (Some "data:a"))
       (LegalEntitiesCtrl.step (LegalEntitiesCtrl.LoadEnd 1 (Some "data:b"))
          (LegalEntitiesCtrl.run
             [LegalEntitiesCtrl.GetFile (Some "a.png");
              LegalEntitiesCtrl.GetFile (Some "b.png")]
             LegalEntitiesCtrl.new)))
  = Some "data:a".
Proof.
  destruct (logo_is_last_finished_read (File:=string)
              [LegalEntitiesCtrl.GetFile (Some "a.png");
               LegalEntitiesCtrl.GetFile (Some "b.png")] _ eq_refl)
    as (_ & _ & _ & Hrace & _).
  apply (Hrace 1 0); [repeat constructor..|discriminate].
Defined.

End Instances.
